(** * HexaScan agent: task execution engine

    A shallow embedding of the core of the HexaScan monitoring agent
    (src/agent/hexascan_agent): the check registry, the permission policy,
    the API client with its backoff state, and the orchestrator's per-task
    dispatch and polling loop.

    Conventions of the embedding.
    - Python values decoded from JSON are the inductive [value]; JSON numbers
      are integers here.
    - Exceptions are the inductive [exn]; every modelled exception is an
      instance of Python's [Exception], so an [except Exception] clause
      catches all of them.
    - Effectful code runs in the monad [M]: a reader over the environment
      [Env] (HTTP transport, wall clock, os.path.abspath, the check
      registry, the loaded configuration), a state [Agent] (the mutable
      attributes of HexaScanAgent and of its ApiClient plus the ordered
      trace of observable effects), and an [Outcome] that is either a
      returned value or a raised exception.
    - Calls to the logger have no influence on control flow and are left out.
    - [time.time()] readings are whole seconds; [time.sleep] is an effect
      recorded in the trace.
    - Signal delivery is not modelled: runs are signal-free. *)

From Stdlib Require Import ZArith String Ascii.
From stdpp Require Import gmap strings list.

#[local] Set Warnings "-register-all".
Local Open Scope string_scope.
Local Open Scope Z_scope.

(* ===================================================================== *)
(** ** Python values *)
(* ===================================================================== *)

(** What [json.loads] produces, as far as the agent inspects it. A dict is an
    association list whose keys are distinct; lookup takes the first
    binding. *)
Inductive value : Type :=
| VNone
| VBool (b : bool)
| VInt (n : Z)
| VStr (s : string)
| VList (items : list value)
| VDict (entries : list (string * value)).

(** Python truthiness, the test made by [or], [if] and [not]: [a or b] is [a]
    when [a] is truthy and [b] otherwise. *)
Definition truthy (v : value) : bool :=
  match v with
  | VNone => false
  | VBool b => b
  | VInt n => negb (n =? 0)%Z
  | VStr s => negb (String.eqb s "")
  | VList items => match items with [] => false | _ => true end
  | VDict entries => match entries with [] => false | _ => true end
  end.

Fixpoint assoc (k : string) (entries : list (string * value)) : option value :=
  match entries with
  | [] => None
  | (k', v) :: rest => if String.eqb k k' then Some v else assoc k rest
  end.

(** Text built by f-strings and [str()]: literal pieces and interpolated
    Python values, kept symbolic so that no rendering has to be guessed. *)
Inductive fstring : Type :=
| Lit (s : string)
| StrOf (v : value)
| Cat (a b : fstring).

(* ===================================================================== *)
(** ** Exceptions (communication/exceptions.py) *)
(* ===================================================================== *)

(** The subclasses of [ApiError]; [Generic] is [ApiError] itself. *)
Inductive ApiErrorClass : Type :=
| AuthenticationError
| RateLimitError (retry_after : Z)
| ServerError
| ConnectionError
| Generic.

Inductive exn : Type :=
| ApiError (cls : ApiErrorClass) (message : fstring) (status_code : option Z)
| PyError (cls : string) (message : fstring).

(** [isinstance(e, ApiError)]. *)
Definition is_ApiError (e : exn) : bool :=
  match e with ApiError _ _ _ => true | PyError _ _ => false end.

Definition is_AuthenticationError (e : exn) : bool :=
  match e with ApiError AuthenticationError _ _ => true | _ => false end.

Definition is_RateLimitError (e : exn) : bool :=
  match e with ApiError (RateLimitError _) _ _ => true | _ => false end.

Definition is_ServerError (e : exn) : bool :=
  match e with ApiError ServerError _ _ => true | _ => false end.

Definition is_ConnectionError (e : exn) : bool :=
  match e with ApiError ConnectionError _ _ => true | _ => false end.

(** [ApiError.__str__], and [str(e)] of any other exception. *)
Definition exn_str (e : exn) : fstring :=
  match e with
  | ApiError _ message (Some code) =>
      if (code =? 0)%Z then message
      else Cat (Lit "[") (Cat (StrOf (VInt code)) (Cat (Lit "] ") message))
  | ApiError _ message None => message
  | PyError _ message => message
  end.

Inductive Outcome (A : Type) : Type :=
| Returns (a : A)
| Raises (e : exn).
Arguments Returns {A} a.
Arguments Raises {A} e.

(* ===================================================================== *)
(** ** Checks (checks/base.py) *)
(* ===================================================================== *)

Inductive CheckStatus : Type := PASSED | WARNING | CRITICAL | ERROR | FAILED.

(** [CheckStatus.<member>.value]. *)
Definition status_value (s : CheckStatus) : string :=
  match s with
  | PASSED => "passed"
  | WARNING => "warning"
  | CRITICAL => "critical"
  | ERROR => "error"
  | FAILED => "failed"
  end.

Module CheckResult.
Record t : Type := mk {
  status : CheckStatus;
  score : Z;
  message : option string;
  details : value;
  duration : Z
}.
End CheckResult.

(** A check instance. [execute] is what one call of the method does; it is
    given the number of effects observed so far, so that a check may answer
    differently from one call to the next. *)
Record BaseCheck : Type := {
  check_config : value;
  execute : nat -> Outcome CheckResult.t
}.

(** A check class, seen through its constructor [check_class(config=config)].
    The constructor may raise (WordPressHealthCheck calls [config.get]). *)
Record CheckClass : Type := {
  construct : value -> Outcome BaseCheck
}.

(* ===================================================================== *)
(** ** Check registry (checks/registry.py) *)
(* ===================================================================== *)

Module CheckRegistry.

(** [_checks: Dict[str, Type[BaseCheck]]]. *)
Abbreviation checks := (gmap string CheckClass).

(** What the decorator returned by [register(check_type)] does to
    [_checks] when applied to [check_class]. *)
Definition register (check_type : string) (check_class : CheckClass)
    (_checks : checks) : checks :=
  <[check_type := check_class]> _checks.

Definition get (check_type : string) (_checks : checks) : option CheckClass :=
  _checks !! check_type.

Definition create (check_type : string) (config : value) (_checks : checks)
    : Outcome (option BaseCheck) :=
  match get check_type _checks with
  | None => Returns None
  | Some check_class =>
      match construct check_class config with
      | Returns check => Returns (Some check)
      | Raises e => Raises e
      end
  end.

Definition clear (_checks : checks) : checks := ∅.

End CheckRegistry.

(* ===================================================================== *)
(** ** Configuration (config/loader.py) *)
(* ===================================================================== *)

Record PermissionsConfig : Type := {
  level : string;
  allowed_paths : list string;
  denied_paths : list string
}.

Record ApiConfig : Type := {
  endpoint : string;
  api_key : string;
  poll_interval : Z;
  timeout : Z;
  verify_ssl : bool
}.

Record AgentConfig : Type := {
  name : string;
  version : string;
  api : ApiConfig;
  permissions : PermissionsConfig
}.

(** [path.startswith(p)]. *)
Definition startswith (path p : string) : bool := String.prefix p path.

Section Permissions.

(** [os.path.abspath]: a function of the process's working directory. *)
Variable abspath : string -> string.

(** One of the two [for] loops of [is_path_allowed]: does the (already
    absolute) [path] start with the absolute form of an entry? The loop
    leaves at the first entry that matches. *)
Fixpoint starts_with_any (path : string) (entries : list string) : bool :=
  match entries with
  | [] => false
  | p :: rest =>
      if startswith path (abspath p) then true else starts_with_any path rest
  end.

Definition is_path_allowed (cfg : AgentConfig) (path : string) : bool :=
  let path := abspath path in
  if starts_with_any path (denied_paths (permissions cfg)) then false
  else if starts_with_any path (allowed_paths (permissions cfg)) then true
  else false.

End Permissions.

(* ===================================================================== *)
(** ** Pure Python operations that may raise *)
(* ===================================================================== *)

Global Instance Outcome_ret : MRet Outcome := λ A a, Returns a.
Global Instance Outcome_bind : MBind Outcome := λ A B f o,
  match o with
  | Returns a => f a
  | Raises e => Raises e
  end.

(** [type(v).__name__]. *)
Definition type_name (v : value) : string :=
  match v with
  | VNone => "NoneType"
  | VBool _ => "bool"
  | VInt _ => "int"
  | VStr _ => "str"
  | VList _ => "list"
  | VDict _ => "dict"
  end.

(** [obj.get(key, default)]: only a dict has the method. *)
Definition py_get (obj : value) (key : string) (default : value) : Outcome value :=
  match obj with
  | VDict entries => Returns (from_option id default (assoc key entries))
  | _ =>
      Raises (PyError "AttributeError"
                (Lit ("'" ++ type_name obj ++ "' object has no attribute 'get'")))
  end.

(** [obj[key]] for a string key. *)
Definition py_getitem (obj : value) (key : string) : Outcome value :=
  match obj with
  | VDict entries =>
      match assoc key entries with
      | Some v => Returns v
      | None => Raises (PyError "KeyError" (Lit ("'" ++ key ++ "'")))
      end
  | VStr _ => Raises (PyError "TypeError" (Lit "string indices must be integers"))
  | VList _ =>
      Raises (PyError "TypeError"
                (Lit "list indices must be integers or slices, not str"))
  | _ =>
      Raises (PyError "TypeError"
                (Lit ("'" ++ type_name obj ++ "' object is not subscriptable")))
  end.

(** The items a [for] loop visits: the elements of a list, the keys of a
    dict, the characters of a string (one per byte here); anything else is
    not iterable. *)
Definition py_iter (v : value) : Outcome (list value) :=
  match v with
  | VList items => Returns items
  | VDict entries => Returns (map (λ kv, VStr (fst kv)) entries)
  | VStr s => Returns (map (λ c, VStr (String c "")) (list_ascii_of_string s))
  | _ =>
      Raises (PyError "TypeError"
                (Lit ("'" ++ type_name v ++ "' object is not iterable")))
  end.

(* ===================================================================== *)
(** ** Tasks and results (communication/api_client.py) *)
(* ===================================================================== *)

Module Task.
Record t : Type := mk {
  id : value;
  check_id : value;
  check_type : value;
  site_id : value;
  config : value;
  priority : value
}.
End Task.

Module TaskResult.
Record t : Type := mk {
  task_id : value;
  status : string;
  score : Z;
  message : option fstring;
  details : option value;
  duration : option Z
}.
End TaskResult.

(** The body of the [for task_data in ...] loop of [get_tasks]: one [Task]
    built from one element of the response. Keyword arguments are evaluated
    left to right; [a or b] evaluates [b] only when [a] is falsy. *)
Definition task_of (task_data : value) : Outcome Task.t :=
  a ← py_get task_data "taskId" VNone;
  id ← (if truthy a then Returns a else py_get task_data "id" VNone);
  check_id ← py_getitem task_data "checkId";
  check_type ← py_getitem task_data "checkType";
  site_id ← py_getitem task_data "siteId";
  c ← py_get task_data "checkConfig" VNone;
  config ← (if truthy c then Returns c else py_get task_data "config" (VDict []));
  priority ← py_get task_data "priority" (VInt 0);
  Returns (Task.mk id check_id check_type site_id config priority).

(** The whole loop: [tasks.append(task)] for each element, in order. *)
Fixpoint tasks_of (items : list value) : Outcome (list Task.t) :=
  match items with
  | [] => Returns []
  | task_data :: rest =>
      task ← task_of task_data;
      tasks ← tasks_of rest;
      Returns (task :: tasks)
  end.

(** What [get_tasks] makes of a parsed response body. *)
Definition parse_tasks (response : value) : Outcome (list Task.t) :=
  data ← py_get response "data" (VDict []);
  task_list ← py_get data "tasks" (VList []);
  items ← py_iter task_list;
  tasks_of items.

(* ===================================================================== *)
(** ** The outside world *)
(* ===================================================================== *)

(** The [Retry-After] header as [int()] sees it: missing, a text that
    [int()] parses, or a text on which [int()] raises ValueError (the
    HTTP-date form of the header, for one). *)
Inductive RetryAfterHeader : Type :=
| NoRetryAfter
| RetryAfterInt (n : Z)
| RetryAfterText (raw : string).

Module Response.
Record t : Type := mk {
  status_code : Z;
  (** [response.json()]: [None] when it raises ValueError. *)
  json : option value;
  text : string;
  retry_after : RetryAfterHeader
}.
End Response.

(** What [session.request] does: answer, or fail with one of
    [requests.exceptions]. *)
Inductive TransportOutcome : Type :=
| Responds (response : Response.t)
| TransportFails (reason : string).

Inductive Event : Type :=
| EvHeartbeat
| EvGetTasks
| EvSubmitResult (result : TaskResult.t)
| EvSleep (seconds : Z)
| EvCreate (check_type : value) (config : value)
| EvExecute
| EvClose.

Record Env : Type := {
  (** the outcome of the n-th call of [session.request] *)
  transport : nat -> TransportOutcome;
  (** the n-th reading of [time.time()] *)
  clock : nat -> Z;
  abspath : string -> string;
  _checks : gmap string CheckClass;
  config : AgentConfig
}.

(** [ApiClient]'s backoff state. *)
Module ApiClient.
Record t : Type := mk {
  _current_backoff_index : nat;
  _last_error_type : option string
}.
End ApiClient.

(** The mutable state of a run: the attributes of [HexaScanAgent], the
    local [last_heartbeat] of [start], how far the environment has been
    consumed, and the effects so far, most recent first.

    [self.api_client] is [None] from [__init__] until [start] builds the
    client: [has_api_client] tells whether it is built, and [api_client]
    holds the client's backoff state (before there is a client, the state a
    new one starts with). The private methods of the agent are called from
    the loop of [start], where the client exists; [stop] can be called at
    any time and tests for it. *)
Record Agent : Type := mkAgent {
  running : bool;
  _current_poll_interval : Z;
  api_client : ApiClient.t;
  last_heartbeat : Z;
  clock_reads : nat;
  requests : nat;
  trace : list Event;
  has_api_client : bool
}.

Definition set_running (b : bool) (s : Agent) : Agent :=
  mkAgent b (_current_poll_interval s) (api_client s) (last_heartbeat s)
          (clock_reads s) (requests s) (trace s) (has_api_client s).
Definition set_current_poll_interval (n : Z) (s : Agent) : Agent :=
  mkAgent (running s) n (api_client s) (last_heartbeat s)
          (clock_reads s) (requests s) (trace s) (has_api_client s).
Definition set_api_client (c : ApiClient.t) (s : Agent) : Agent :=
  mkAgent (running s) (_current_poll_interval s) c (last_heartbeat s)
          (clock_reads s) (requests s) (trace s) (has_api_client s).
Definition set_last_heartbeat (n : Z) (s : Agent) : Agent :=
  mkAgent (running s) (_current_poll_interval s) (api_client s) n
          (clock_reads s) (requests s) (trace s) (has_api_client s).
Definition tick_clock (s : Agent) : Agent :=
  mkAgent (running s) (_current_poll_interval s) (api_client s) (last_heartbeat s)
          (S (clock_reads s)) (requests s) (trace s) (has_api_client s).
Definition count_request (s : Agent) : Agent :=
  mkAgent (running s) (_current_poll_interval s) (api_client s) (last_heartbeat s)
          (clock_reads s) (S (requests s)) (trace s) (has_api_client s).
Definition record (ev : Event) (s : Agent) : Agent :=
  mkAgent (running s) (_current_poll_interval s) (api_client s) (last_heartbeat s)
          (clock_reads s) (requests s) (ev :: trace s) (has_api_client s).
(** [self.api_client = ApiClient(...)]: a new client, its backoff state as
    [ApiClient.__init__] sets it. *)
Definition new_api_client (s : Agent) : Agent :=
  mkAgent (running s) (_current_poll_interval s) (ApiClient.mk 0 None) (last_heartbeat s)
          (clock_reads s) (requests s) (trace s) true.

(* ===================================================================== *)
(** ** The monad of agent code *)
(* ===================================================================== *)

Definition M (A : Type) : Type := Env -> Agent -> Outcome A * Agent.

Global Instance M_ret : MRet M := λ A a _ s, (Returns a, s).
Global Instance M_bind : MBind M := λ A B f m env s,
  match m env s with
  | (Returns a, s') => f a env s'
  | (Raises e, s') => (Raises e, s')
  end.

Definition raise {A} (e : exn) : M A := λ _ s, (Raises e, s).
Definition ask : M Env := λ env s, (Returns env, s).
Definition gets {A} (f : Agent -> A) : M A := λ _ s, (Returns (f s), s).
Definition modify (f : Agent -> Agent) : M unit := λ _ s, (Returns tt, f s).
Definition lift {A} (o : Outcome A) : M A := λ _ s, (o, s).
Definition emit (ev : Event) : M unit := modify (record ev).

(** [try: body except ...: handler]. [handler e] is [None] when no
    [except] clause matches [e], which then propagates. *)
Definition try_except {A} (body : M A) (handler : exn -> option (M A)) : M A :=
  λ env s,
    match body env s with
    | (Returns a, s') => (Returns a, s')
    | (Raises e, s') =>
        match handler e with
        | Some h => h env s'
        | None => (Raises e, s')
        end
    end.

Definition time_time : M Z :=
  env ← ask; n ← gets clock_reads; modify tick_clock;; mret (clock env n).

(** [time.sleep] refuses a negative length. *)
Definition time_sleep (seconds : Z) : M unit :=
  if seconds <? 0
  then raise (PyError "ValueError" (Lit "sleep length must be non-negative"))
  else emit (EvSleep seconds).

(* ===================================================================== *)
(** ** API client (communication/api_client.py) *)
(* ===================================================================== *)

Definition RATE_LIMIT_BACKOFF : list Z := [120; 240; 600].
Definition SERVER_ERROR_BACKOFF : list Z := [300; 600; 1200].

(** The table [get_backoff_interval] picks for an error type. *)
Definition backoff_list (error_type : string) : list Z :=
  if decide (error_type = "rate_limit") then RATE_LIMIT_BACKOFF
  else SERVER_ERROR_BACKOFF.

Definition _reset_backoff (c : ApiClient.t) : ApiClient.t :=
  ApiClient.mk 0 None.

(** Backoff on the client's own state. The index starts at 0 and is only
    reset or incremented, hence a natural number. The subscript
    [min(index, len - 1)] is always in range for the two tables; the
    default 0 is never returned (see [backoff_subscript_in_range]). *)
Definition get_backoff_interval (error_type : string) (c : ApiClient.t)
    : Z * ApiClient.t :=
  let c :=
    if decide (Some error_type ≠ ApiClient._last_error_type c)
    then ApiClient.mk 0 (Some error_type)
    else c in
  let l := backoff_list error_type in
  let interval :=
    default 0 (l !! Nat.min (ApiClient._current_backoff_index c) (length l - 1)) in
  (interval,
   ApiClient.mk (S (ApiClient._current_backoff_index c)) (ApiClient._last_error_type c)).

(** [data.get('message', default)] as the message of an exception. *)
Definition message_of (data : value) (default : string) : Outcome fstring :=
  m ← py_get data "message" (VStr default); Returns (StrOf m).

Definition _handle_response (response : Response.t) : M value :=
  let status_code := Response.status_code response in
  let data :=
    match Response.json response with
    | Some data => data
    | None =>
        VDict [("message",
                VStr (if String.eqb (Response.text response) ""
                      then "Unknown error" else Response.text response))]
    end in
  if (200 <=? status_code) && (status_code <? 300) then
    c ← gets api_client; modify (set_api_client (_reset_backoff c));; mret data
  else if (status_code =? 401)%Z || (status_code =? 403)%Z then
    message ← lift (message_of data "Authentication failed");
    raise (ApiError AuthenticationError message (Some status_code))
  else if (status_code =? 429)%Z then
    retry_after ←
      match Response.retry_after response with
      | NoRetryAfter => mret 120
      | RetryAfterInt n => mret n
      | RetryAfterText raw =>
          raise (PyError "ValueError"
                   (Lit ("invalid literal for int() with base 10: '" ++ raw ++ "'")))
      end;
    message ← lift (message_of data "Rate limit exceeded");
    raise (ApiError (RateLimitError retry_after) message (Some status_code))
  else if (500 <=? status_code) then
    message ← lift (message_of data "Server error");
    raise (ApiError ServerError message (Some status_code))
  else
    message ← lift (message_of data "Request failed");
    raise (ApiError Generic message (Some status_code)).

(** [_request]: one call of [session.request]; a transport failure becomes
    a [ConnectionError] without status code. *)
Definition _request : M value :=
  env ← ask;
  n ← gets requests;
  modify count_request;;
  match transport env n with
  | Responds response => _handle_response response
  | TransportFails reason => raise (ApiError ConnectionError (Lit reason) None)
  end.

Definition heartbeat : M value := emit EvHeartbeat;; _request.

Definition get_tasks : M (list Task.t) :=
  emit EvGetTasks;;
  response ← _request;
  lift (parse_tasks response).

Definition submit_result (result : TaskResult.t) : M value :=
  emit (EvSubmitResult result);; _request.

Definition close : M unit := emit EvClose.

(* ===================================================================== *)
(** ** Orchestrator (agent.py) *)
(* ===================================================================== *)

(** [status_map] of [_execute_task]. *)
Definition status_map : gmap string string :=
  list_to_map
    [("passed", "PASSED"); ("warning", "WARNING"); ("critical", "CRITICAL");
     ("error", "ERROR"); ("failed", "ERROR")].

(** [status_map.get(v, 'ERROR')]. *)
Definition status_map_get (v : string) : string :=
  default "ERROR" (status_map !! v).

(** [int((time.time() - start_time) * 1000)]. *)
Definition duration_ms (now start_time : Z) : Z := (now - start_time) * 1000.

Definition _submit_error_result (task : Task.t) (message : fstring) (duration : Z)
    : M unit :=
  try_except
    (submit_result
       (TaskResult.mk (Task.id task) "ERROR" 0 (Some message) None (Some duration));;
     mret tt)
    (λ e, if is_ApiError e then Some (mret tt) else None).

(** [self.config.is_path_allowed(path)] on a value taken from the task:
    [os.path.abspath] raises TypeError on anything but a string. *)
Definition config_is_path_allowed (path : value) : M bool :=
  env ← ask;
  match path with
  | VStr p => mret (is_path_allowed (abspath env) (config env) p)
  | _ =>
      raise (PyError "TypeError"
               (Lit ("expected str, bytes or os.PathLike object, not " ++ type_name path)))
  end.

(** The [for path in task_paths] loop. The result tells whether the loop
    left the function ([return] after reporting a denied path). *)
Fixpoint check_paths (task : Task.t) (start_time : Z) (task_paths : list value)
    : M bool :=
  match task_paths with
  | [] => mret false
  | path :: rest =>
      allowed ← config_is_path_allowed path;
      if negb allowed then
        now ← time_time;
        _submit_error_result task
          (Cat (Lit "Path not allowed by agent permissions: ") (StrOf path))
          (duration_ms now start_time);;
        mret true
      else check_paths task start_time rest
  end.

(** [CheckRegistry.create(task.check_type, task.config)] as called from the
    orchestrator. The registry's keys are strings: a hashable value of
    another type is simply not found, an unhashable one makes the dict
    lookup raise. *)
Definition registry_create (check_type config : value) : M (option BaseCheck) :=
  env ← ask;
  emit (EvCreate check_type config);;
  match check_type with
  | VStr s => lift (CheckRegistry.create s config (_checks env))
  | VList _ | VDict _ =>
      raise (PyError "TypeError" (Lit ("unhashable type: '" ++ type_name check_type ++ "'")))
  | _ => mret None
  end.

(** [check.execute()]. *)
Definition run_execute (check : BaseCheck) : M CheckResult.t :=
  emit EvExecute;;
  n ← gets (λ s, length (trace s));
  lift (execute check n).

Definition _execute_task (task : Task.t) : M unit :=
  start_time ← time_time;
  try_except
    (task_paths ← lift (py_get (Task.config task) "paths" (VList []));
     paths ← lift (py_iter task_paths);
     returned ← check_paths task start_time paths;
     if (returned : bool) then mret tt
     else
       check ← registry_create (Task.check_type task) (Task.config task);
       match check with
       | None =>
           now ← time_time;
           _submit_error_result task
             (Cat (Lit "Unknown check type: ") (StrOf (Task.check_type task)))
             (duration_ms now start_time)
       | Some check =>
           result ← run_execute check;
           now ← time_time;
           let duration := duration_ms now start_time in
           submit_result
             (TaskResult.mk (Task.id task)
                (status_map_get (status_value (CheckResult.status result)))
                (CheckResult.score result)
                (Lit <$> CheckResult.message result)
                (Some (CheckResult.details result))
                (Some duration));;
           mret tt
       end)
    (λ e, Some (now ← time_time;
                _submit_error_result task (exn_str e) (duration_ms now start_time))).

(** [stop]: the session is closed only [if self.api_client], that is, when
    the client has been built. *)
Definition stop : M unit :=
  modify (set_running false);;
  built ← gets has_api_client;
  if (built : bool) then close else mret tt.

Definition _send_heartbeat : M unit :=
  try_except
    (heartbeat;;
     env ← ask;
     modify (set_current_poll_interval (poll_interval (api (config env)))))
    (λ e, if is_ApiError e then Some (mret tt) else None).

Definition _poll_tasks : M (list Task.t) :=
  try_except get_tasks (λ e, if is_ApiError e then Some (mret []) else None).

(** The [for task in tasks] loop of [start]. *)
Fixpoint execute_tasks (tasks : list Task.t) : M unit :=
  match tasks with
  | [] => mret tt
  | task :: rest =>
      r ← gets running;
      if negb r then mret tt
      else _execute_task task;; execute_tasks rest
  end.

Definition heartbeat_interval : Z := 60.

(** [self.api_client.get_backoff_interval(error_type)] from the loop. *)
Definition client_backoff (error_type : string) : M Z :=
  c ← gets api_client;
  let '(interval, c') := get_backoff_interval error_type c in
  modify (set_api_client c');;
  mret interval.

(** The [except] clauses of the main loop, in their order. *)
Definition loop_handler (e : exn) : option (M unit) :=
  if is_AuthenticationError e then Some stop
  else if is_RateLimitError e then
    Some (backoff ← client_backoff "rate_limit";
          modify (set_current_poll_interval backoff))
  else if is_ServerError e then
    Some (backoff ← client_backoff "server_error";
          modify (set_current_poll_interval backoff))
  else if is_ConnectionError e then Some (time_sleep 30)
  else Some (time_sleep 60).

(** One pass through the body of [while self.running]. *)
Definition iteration : M unit :=
  try_except
    (current_time ← time_time;
     last ← gets last_heartbeat;
     (if (heartbeat_interval <=? current_time - last)
      then _send_heartbeat;; modify (set_last_heartbeat current_time)
      else mret tt);;
     tasks ← _poll_tasks;
     execute_tasks tasks;;
     interval ← gets _current_poll_interval;
     time_sleep interval)
    loop_handler.

(** [while self.running: ...], cut off after [fuel] passes. *)
Fixpoint main_loop (fuel : nat) : M unit :=
  match fuel with
  | O => mret tt
  | S fuel' =>
      r ← gets running;
      if (r : bool) then iteration;; main_loop fuel' else mret tt
  end.

(** [HexaScanAgent.__init__]: not running, no client yet. *)
Definition __init__ : Agent :=
  mkAgent false 60 (ApiClient.mk 0 None) 0 0 0 [] false.

(** [start], from the point where the configuration is loaded: the client
    is built, then the assignments before the loop, then the loop. *)
Definition start (fuel : nat) : M unit :=
  env ← ask;
  modify new_api_client;;
  modify (set_current_poll_interval (poll_interval (api (config env))));;
  modify (set_running true);;
  modify (set_last_heartbeat 0);;
  main_loop fuel.

(* ===================================================================== *)
(** ** A concrete [os.path.abspath] *)
(* ===================================================================== *)

(** CPython's [posixpath.abspath] for a process whose working directory is
    [cwd]. It is not code of this repository: the agent model takes
    [abspath] from the environment, and this instance serves the concrete
    runs below. *)
Module posixpath.

(** [s.split('/')]. *)
Fixpoint split (s : string) : list string :=
  match s with
  | EmptyString => [EmptyString]
  | String c rest =>
      let parts := split rest in
      if Ascii.eqb c "/" then EmptyString :: parts
      else
        match parts with
        | p :: ps => String c p :: ps
        | [] => [String c EmptyString]
        end
  end.

(** ['/'.join(comps)]. *)
Fixpoint join_comps (comps : list string) : string :=
  match comps with
  | [] => EmptyString
  | [c] => c
  | c :: rest => (c ++ "/" ++ join_comps rest)%string
  end.

(** The loop of [normpath] over the components; [new_comps] is kept with
    its last element first. *)
Fixpoint collapse (initial_slashes : bool) (comps new_comps : list string)
    : list string :=
  match comps with
  | [] => rev new_comps
  | comp :: rest =>
      if String.eqb comp "" || String.eqb comp "." then
        collapse initial_slashes rest new_comps
      else if negb (String.eqb comp "..")
              || (negb initial_slashes && bool_decide (new_comps = []))
              || match new_comps with
                 | last :: _ => String.eqb last ".."
                 | [] => false
                 end
      then collapse initial_slashes rest (comp :: new_comps)
      else collapse initial_slashes rest (tail new_comps)
  end.

Definition normpath (path : string) : string :=
  if String.eqb path "" then "."
  else
    let initial_slashes : nat :=
      if String.prefix "/" path then
        if String.prefix "//" path && negb (String.prefix "///" path)
        then 2%nat else 1%nat
      else 0%nat in
    let comps := collapse (negb (Nat.eqb initial_slashes 0)) (split path) [] in
    let path :=
      (match initial_slashes with
       | O => ""
       | S O => "/"
       | _ => "//"
       end ++ join_comps comps)%string in
    if String.eqb path "" then "." else path.

(** [join(a, b)] for two components. *)
Definition join (a b : string) : string :=
  if String.prefix "/" b then b
  else if String.eqb a "" || bool_decide (last (list_ascii_of_string a) = Some "/"%char)
       then (a ++ b)%string
       else (a ++ "/" ++ b)%string.

Definition abspath (cwd path : string) : string :=
  normpath (if String.prefix "/" path then path else join cwd path).

End posixpath.

(* ===================================================================== *)
(** ** Observations used in the statements *)
(* ===================================================================== *)

(** The intervals returned by [n] consecutive calls of
    [get_backoff_interval] with the same error type. *)
Fixpoint backoff_run (error_type : string) (n : nat) (c : ApiClient.t) : list Z :=
  match n with
  | O => []
  | S n' =>
      let '(interval, c') := get_backoff_interval error_type c in
      interval :: backoff_run error_type n' c'
  end.

(** The subscript at which a call for [error_type] reads the table: 0 when
    the error type differs from the last one recorded. *)
Definition start_index (error_type : string) (c : ApiClient.t) : nat :=
  if decide (Some error_type ≠ ApiClient._last_error_type c) then O
  else ApiClient._current_backoff_index c.

(** Entry of a backoff table at the capped subscript. *)
Definition table_at (l : list Z) (i : nat) : Z :=
  default 0 (l !! Nat.min i (length l - 1)).

Definition is_submit (ev : Event) : bool :=
  match ev with EvSubmitResult _ => true | _ => false end.

Definition is_error_submit (ev : Event) : bool :=
  match ev with
  | EvSubmitResult r => String.eqb (TaskResult.status r) "ERROR"
  | _ => false
  end.

(** A call of [CheckRegistry.create] or of a check's [execute]. *)
Definition is_check_event (ev : Event) : bool :=
  match ev with EvCreate _ _ | EvExecute => true | _ => false end.

Definition is_sleep (ev : Event) : bool :=
  match ev with EvSleep _ => true | _ => false end.

Definition is_get_tasks (ev : Event) : bool :=
  match ev with EvGetTasks => true | _ => false end.

Fixpoint count (p : Event -> bool) (tr : list Event) : nat :=
  match tr with
  | [] => O
  | ev :: rest => if p ev then S (count p rest) else count p rest
  end.

(** The results handed to [submit_result], oldest first. *)
Definition submissions (s : Agent) : list TaskResult.t :=
  omap (λ ev, match ev with EvSubmitResult r => Some r | _ => None end)
       (rev (trace s)).

(** The effects of a run, oldest first. *)
Definition history (s : Agent) : list Event := rev (trace s).

(** Postcondition of one run of [m] from [s]. *)
Definition post {A} (m : M A) (env : Env) (s : Agent)
    (Q : Outcome A -> Agent -> Prop) : Prop :=
  Q (fst (m env s)) (snd (m env s)).

(** [e] is not an [ApiError]: the [except ApiError] clauses let it pass. *)
Definition escapes_api_handlers {A} (o : Outcome A) : Prop :=
  match o with
  | Returns _ => True
  | Raises e => is_ApiError e = false
  end.

(** What per-task code leaves alone: the [running] flag, the poll interval
    and the time of the last heartbeat. *)
Definition same_control (s s' : Agent) : Prop :=
  running s' = running s
  ∧ _current_poll_interval s' = _current_poll_interval s
  ∧ last_heartbeat s' = last_heartbeat s.

(** An answer of the transport on which [_request] returns or raises an
    [ApiError], never another exception. *)
Definition answer_within_api (t : TransportOutcome) : Prop :=
  match t with
  | TransportFails _ => True
  | Responds response =>
      ∀ env s e, fst (_handle_response response env s) = Raises e ->
                 is_ApiError e = true
  end.

(** [path] is a string that the permission policy refuses. *)
Definition denied (env : Env) (path : value) : Prop :=
  ∃ p, path = VStr p ∧ is_path_allowed (abspath env) (config env) p = false.

(** The task's [config.paths] holds a path that the policy refuses. *)
Definition names_denied_path (env : Env) (task : Task.t) : Prop :=
  ∃ task_paths paths,
    py_get (Task.config task) "paths" (VList []) = Returns task_paths
    ∧ py_iter task_paths = Returns paths
    ∧ Exists (denied env) paths.

(** Events that per-task dispatch can produce. *)
Definition task_events (evs : list Event) : Prop :=
  Forall (λ ev, is_submit ev = true ∨ is_check_event ev = true) evs.

(** What one call of [_execute_task] from [s] leaves behind: [evs] are the
    effects it added, most recent first. *)
Definition dispatched (env : Env) (task : Task.t) (s : Agent)
    (o : Outcome unit) (s' : Agent) : Prop :=
  same_control s s'
  ∧ escapes_api_handlers o
  ∧ ∃ evs,
      trace s' = (evs ++ trace s)%list
      ∧ task_events evs
      ∧ (1 ≤ count is_submit evs ≤ 2)%nat
      ∧ (names_denied_path env task ->
         count is_check_event evs = O
         ∧ count is_error_submit evs = count is_submit evs
         ∧ (answer_within_api (transport env (requests s)) ->
            count is_submit evs = 1%nat ∧ o = Returns tt)).

(* --------------------------------------------------------------------- *)
(** *** Field resolution of [get_tasks], in words *)

(** The task identifier as the interface description words it: ['taskId']
    when the key is present, otherwise ['id']. *)
Definition id_by_presence (entries : list (string * value)) : value :=
  match assoc "taskId" entries with
  | Some v => v
  | None => from_option id VNone (assoc "id" entries)
  end.

(** Likewise the configuration: ['checkConfig'] when the key is present,
    otherwise ['config'], an empty map when both are absent. *)
Definition config_by_presence (entries : list (string * value)) : value :=
  match assoc "checkConfig" entries with
  | Some v => v
  | None => from_option id (VDict []) (assoc "config" entries)
  end.

(** The same two rules with "present" read as "present with a truthy
    value": a null, empty or zero ['taskId'] (an empty or null
    ['checkConfig']) gives way to the other key. *)
Definition id_by_truth (entries : list (string * value)) : value :=
  match assoc "taskId" entries with
  | Some v => if truthy v then v else from_option id VNone (assoc "id" entries)
  | None => from_option id VNone (assoc "id" entries)
  end.

Definition config_by_truth (entries : list (string * value)) : value :=
  match assoc "checkConfig" entries with
  | Some v =>
      if truthy v then v else from_option id (VDict []) (assoc "config" entries)
  | None => from_option id (VDict []) (assoc "config" entries)
  end.

(** A task object carries the three mandatory keys. *)
Definition has_required_keys (entries : list (string * value)) : Prop :=
  is_Some (assoc "checkId" entries) ∧ is_Some (assoc "checkType" entries)
  ∧ is_Some (assoc "siteId" entries).

Definition task_by_truth (entries : list (string * value)) : Task.t :=
  Task.mk (id_by_truth entries)
          (from_option id VNone (assoc "checkId" entries))
          (from_option id VNone (assoc "checkType" entries))
          (from_option id VNone (assoc "siteId" entries))
          (config_by_truth entries)
          (from_option id (VInt 0) (assoc "priority" entries)).

(* --------------------------------------------------------------------- *)
(** *** Concrete runs *)

Module Scenario.

Definition passing_check : CheckClass :=
  {| construct := λ cfg,
       Returns {| check_config := cfg;
                  execute := λ _, Returns (CheckResult.mk PASSED 100 (Some "ok") (VDict []) 0) |} |}.

(** DEFAULT_CONFIG of config/loader.py. *)
Definition default_config : AgentConfig :=
  {| name := "hexascan-agent"; version := "1.0.0";
     api := {| endpoint := "http://localhost:3000/api/v1"; api_key := "secret";
               poll_interval := 60; timeout := 30; verify_ssl := true |};
     permissions := {| level := "read_only";
                       allowed_paths := ["/var/log"; "/var/www"];
                       denied_paths := ["/etc/shadow"; "/root/.ssh"] |} |}.

Definition no_tasks : TransportOutcome :=
  Responds (Response.mk 200 (Some (VDict [("data", VDict [("tasks", VList [])])]))
              "" NoRetryAfter).

Definition answers (code : Z) (retry_after : RetryAfterHeader) : TransportOutcome :=
  Responds (Response.mk code (Some (VDict [("message", VStr "m")])) "" retry_after).

(** A server whose first answer is [first] and which then answers every
    request with [then_]. *)
Definition server (first then_ : TransportOutcome) : Env :=
  {| transport := λ n, match n with O => first | _ => then_ end;
     clock := λ n, 1700000000 + Z.of_nat n;
     abspath := posixpath.abspath "/";
     _checks := {["CPU_USAGE" := passing_check]};
     config := default_config |}.

Definition cpu_task : Task.t :=
  Task.mk (VStr "t1") (VStr "c1") (VStr "CPU_USAGE") (VStr "s1") (VDict []) (VInt 0).

Definition shadow_task : Task.t :=
  Task.mk (VStr "t2") (VStr "c1") (VStr "CPU_USAGE") (VStr "s1")
          (VDict [("paths", VList [VStr "/etc/shadow"])]) (VInt 0).

(** An agent inside the loop of [start]: the client is built and [running]
    is set. *)
Definition started : Agent := set_running true (new_api_client __init__).

Definition http_date : string := "Wed, 21 Oct 2026 07:28:00 GMT".

(** A task object that carries both spellings of each field, the newer
    ones with an empty value. *)
Definition both_spellings : list (string * value) :=
  [("taskId", VStr ""); ("id", VStr "t1");
   ("checkId", VStr "c1"); ("checkType", VStr "CPU_USAGE"); ("siteId", VStr "s1");
   ("checkConfig", VDict []); ("config", VDict [("paths", VList [VStr "/var/log"])])].

(** The server rejects the agent's key: every request, the first heartbeat
    included, is answered with a 401. *)
Definition rejects_key : Env :=
  server (answers 401 NoRetryAfter) (answers 401 NoRetryAfter).

(** The server rate-limits the agent: every request, the first heartbeat
    included, is answered with a 429 and [Retry-After: 300]. *)
Definition rate_limits : Env :=
  server (answers 429 (RetryAfterInt 300)) (answers 429 (RetryAfterInt 300)).

(** The server fails the first request with a 500 and accepts the rest. *)
Definition fails_once : Env :=
  server (answers 500 NoRetryAfter) (answers 200 NoRetryAfter).

(** The server rate-limits the first request with a [Retry-After] header in
    its HTTP-date form and accepts the rest. *)
Definition rate_limits_with_date : Env :=
  server (answers 429 (RetryAfterText http_date)) (answers 200 NoRetryAfter).

Definition one_task (entries : list (string * value)) : TransportOutcome :=
  Responds (Response.mk 200
              (Some (VDict [("data", VDict [("tasks", VList [VDict entries])])]))
              "" NoRetryAfter).

End Scenario.

(** What one pass of the loop from [s] leaves behind: it ends with one
    sleep, the only one of the pass. *)
Definition iterated (env : Env) (s : Agent) (o : Outcome unit) (s' : Agent) : Prop :=
  o = Returns tt
  ∧ running s' = running s
  ∧ (_current_poll_interval s' = _current_poll_interval s
     ∨ _current_poll_interval s' = poll_interval (api (config env)))
  ∧ ∃ evs seconds,
      trace s' = (EvSleep seconds :: evs ++ trace s)%list
      ∧ count is_sleep evs = O
      ∧ (seconds = 60 ∨ seconds = _current_poll_interval s').

(** Every sleep among [evs] lasts one of the [allowed] durations. *)
Definition sleeps_within (allowed : list Z) (evs : list Event) : Prop :=
  Forall (λ ev, match ev with EvSleep n => n ∈ allowed | _ => True end) evs.

(* --------------------------------------------------------------------- *)
(** *** Proof automation *)

(* Equalities between the control fields of states related by
   [same_control]. *)
Ltac solve_control :=
  unfold same_control in *;
  cbn [tick_clock running _current_poll_interval last_heartbeat] in *;
  repeat match goal with H : _ ∧ _ |- _ => destruct H end;
  repeat split; congruence.

(* Closes the part of [dispatched] that does not depend on the task's
   paths, for the explicit list [evs] of added effects. *)
Ltac dispatched_with evs :=
  split; [solve_control|];
  split; [done|];
  exists evs;
  split; [cbn [app tick_clock trace] in *; congruence|];
  split; [unfold task_events; repeat constructor; cbn; eauto|];
  split; [cbn [count is_submit]; lia|].


(* --------------------------------------------------------------------- *)
(** *** Per-task dispatch, case by case *)

(** [path] is a string that the permission policy accepts. *)
Definition allowed (env : Env) (path : value) : Prop :=
  ∃ p, path = VStr p ∧ is_path_allowed (abspath env) (config env) p = true.

(** The task's [config] is a dict and every entry of its [paths] is a
    string that the policy accepts: the [for] loop of [_execute_task] runs
    to its end. *)
Definition paths_all_allowed (env : Env) (task : Task.t) : Prop :=
  ∃ task_paths paths,
    py_get (Task.config task) "paths" (VList []) = Returns task_paths
    ∧ py_iter task_paths = Returns paths
    ∧ Forall (allowed env) paths.

(** The Error result [_submit_error_result] builds. *)
Definition error_result (task : Task.t) (message : fstring) (duration : Z)
    : TaskResult.t :=
  TaskResult.mk (Task.id task) "ERROR" 0 (Some message) None (Some duration).

(** The result [_execute_task] builds from what a check returned. *)
Definition check_result (task : Task.t) (result : CheckResult.t) (duration : Z)
    : TaskResult.t :=
  TaskResult.mk (Task.id task)
    (status_map_get (status_value (CheckResult.status result)))
    (CheckResult.score result)
    (Lit <$> CheckResult.message result)
    (Some (CheckResult.details result))
    (Some duration).

(** The duration [_execute_task] reports when it reads the clock for the
    second time. *)
Definition second_reading (env : Env) (s : Agent) : Z :=
  duration_ms (clock env (S (clock_reads s))) (clock env (clock_reads s)).


Definition wire_statuses : list string := ["PASSED"; "WARNING"; "CRITICAL"; "ERROR"].

(** The effects one call of [_execute_task] may add, oldest first: at most
    one call of [CheckRegistry.create], then at most one [execute], then one
    or two submissions for this task. *)
Definition dispatch_shape (task : Task.t) (evs : list Event) : Prop :=
  ∃ (checks : list Event) (results : list TaskResult.t),
    evs = (checks ++ (EvSubmitResult <$> results))%list
    ∧ (checks = []
       ∨ ((checks = [EvCreate (Task.check_type task) (Task.config task)]
           ∨ checks = [EvCreate (Task.check_type task) (Task.config task); EvExecute])
          ∧ ∃ entries, Task.config task = VDict entries))
    ∧ (1 ≤ length results ≤ 2)%nat
    ∧ Forall (λ r, TaskResult.task_id r = Task.id task
                   ∧ TaskResult.status r ∈ wire_statuses) results.

(** Reading the task's paths raises [e]: the task's [config] has no [get]
    (it is not a dict), or its [paths] entry cannot be iterated. *)
Definition paths_unreadable (task : Task.t) (e : exn) : Prop :=
  py_get (Task.config task) "paths" (VList []) = Raises e
  ∨ ∃ task_paths,
      py_get (Task.config task) "paths" (VList []) = Returns task_paths
      ∧ py_iter task_paths = Raises e.


(** Concrete cases. *)
Module Cases.

Definition no_proc : exn := PyError "OSError" (Lit "no /proc").

(** A check whose [execute] raises. *)
Definition broken : BaseCheck :=
  {| check_config := VDict []; execute := λ _, Raises no_proc |}.

Definition broken_check : CheckClass := {| construct := λ _, Returns broken |}.

(** A server that answers every request with [answer], and an agent whose
    only registered check is [check_class]. *)
Definition world (check_class : CheckClass) (answer : TransportOutcome) : Env :=
  {| transport := λ _, answer;
     clock := λ n, Z.of_nat n;
     abspath := posixpath.abspath "/";
     _checks := {["CPU_USAGE" := check_class]};
     config := Scenario.default_config |}.

Definition ok : Response.t :=
  Response.mk 200 (Some (VDict [("success", VBool true)])) "" NoRetryAfter.

Definition passed : CheckResult.t :=
  CheckResult.mk PASSED 100 (Some "ok") (VDict []) 0.

Definition passing : BaseCheck :=
  {| check_config := VDict []; execute := λ _, Returns passed |}.

Definition passing_check : CheckClass := {| construct := λ _, Returns passing |}.

End Cases.

(* --------------------------------------------------------------------- *)
(** *** The loop, case by case *)

Definition is_heartbeat (ev : Event) : bool :=
  match ev with EvHeartbeat => true | _ => false end.

(** A task object of a poll response that [task_of] accepts: a dict with
    the three mandatory keys. *)
Definition well_formed_task (v : value) : Prop :=
  ∃ entries, v = VDict entries ∧ has_required_keys entries.

(** A poll response with [items] under data.tasks. *)
Definition polled (env : Env) (s : Agent) (items : list value) : Prop :=
  ∃ response body data,
    transport env (requests s) = Responds response
    ∧ 200 ≤ Response.status_code response < 300
    ∧ Response.json response = Some (VDict body)
    ∧ assoc "data" body = Some (VDict data)
    ∧ assoc "tasks" data = Some (VList items).

(* --------------------------------------------------------------------- *)
(** *** Responses, classified *)

(** [200 <= status_code < 300]. *)
Definition is_success (response : Response.t) : bool :=
  (200 <=? Response.status_code response) && (Response.status_code response <? 300).

(** The body [_handle_response] works on has a [get] method: the JSON body
    is an object, or the body is no JSON and the client wraps its text. *)
Definition body_has_get (response : Response.t) : bool :=
  match Response.json response with
  | None | Some (VDict _) => true
  | Some _ => false
  end.

(** [int()] accepts the Retry-After header (or there is none). *)
Definition retry_after_parses (response : Response.t) : bool :=
  match Response.retry_after response with
  | RetryAfterText _ => false
  | _ => true
  end.

(* --------------------------------------------------------------------- *)
(** *** Two worlds that differ in Retry-After values only *)

Definition retry_after_text (h : RetryAfterHeader) : option string :=
  match h with RetryAfterText raw => Some raw | _ => None end.

(** Two answers of the transport that agree on everything but the number
    of seconds of a Retry-After header (present or not). *)
Definition same_but_retry_after (t t' : TransportOutcome) : Prop :=
  match t, t' with
  | Responds r, Responds r' =>
      Response.status_code r = Response.status_code r'
      ∧ Response.json r = Response.json r'
      ∧ Response.text r = Response.text r'
      ∧ retry_after_text (Response.retry_after r)
        = retry_after_text (Response.retry_after r')
  | TransportFails reason, TransportFails reason' => reason = reason'
  | _, _ => False
  end.

Definition same_world_but_retry_after (env env' : Env) : Prop :=
  (∀ n, same_but_retry_after (transport env n) (transport env' n))
  ∧ clock env = clock env'
  ∧ abspath env = abspath env'
  ∧ _checks env = _checks env'
  ∧ config env = config env'.

(** Two exceptions that agree on everything but the [retry_after] attribute
    of a RateLimitError. *)
Definition same_exn (e e' : exn) : Prop :=
  match e, e' with
  | ApiError (RateLimitError _) m code, ApiError (RateLimitError _) m' code' =>
      m = m' ∧ code = code'
  | _, _ => e = e'
  end.

Definition same_outcome {A} (o o' : Outcome A) : Prop :=
  match o, o' with
  | Returns a, Returns a' => a = a'
  | Raises e, Raises e' => same_exn e e'
  | _, _ => False
  end.

(** [m] in [env] and [m'] in [env'] end in the same state, with the same
    outcome up to [retry_after]. *)
Definition agree {A} (env env' : Env) (m m' : M A) : Prop :=
  ∀ s, same_outcome (fst (m env s)) (fst (m' env' s))
       ∧ snd (m env s) = snd (m' env' s).

(* --------------------------------------------------------------------- *)
(** *** Backoff over several calls *)

(** The intervals returned by successive calls of [get_backoff_interval],
    one for each of [error_types]. *)
Fixpoint backoff_calls (error_types : list string) (c : ApiClient.t) : list Z :=
  match error_types with
  | [] => []
  | error_type :: rest =>
      let '(interval, c') := get_backoff_interval error_type c in
      interval :: backoff_calls rest c'
  end.

(** No error type of the sequence repeats the one before it ([previous]
    being the one before the first). *)
Fixpoint alternating (previous : option string) (error_types : list string) : Prop :=
  match error_types with
  | [] => True
  | error_type :: rest =>
      previous ≠ Some error_type ∧ alternating (Some error_type) rest
  end.

Module Cases2.

(** The world of [Scenario.rate_limits], without the Retry-After header. *)
Definition rate_limits_plain : Env :=
  Scenario.server (Scenario.answers 429 NoRetryAfter) (Scenario.answers 429 NoRetryAfter).

End Cases2.

(* --------------------------------------------------------------------- *)
(** *** The registry's listing *)

(** [CheckRegistry.list_types]: the registered identifiers. Python lists
    them in insertion order; the finite map keeps no such order, so the
    list here is in the map's own order and only its members count. *)
Definition list_types (_checks : gmap string CheckClass) : list string :=
  (map_to_list _checks).*1.

(* --------------------------------------------------------------------- *)
(** *** Merging a configuration file into the defaults (config/loader.py) *)

(** [DEFAULT_CONFIG]. *)
Definition DEFAULT_CONFIG : list (string * value) :=
  [ ("agent", VDict [ ("name", VStr "hexascan-agent"); ("version", VStr "1.0.0") ]);
    ("api", VDict [ ("endpoint", VStr "http://localhost:3000/api/v1");
                    ("api_key_source", VStr "file");
                    ("api_key_file", VStr "/etc/hexascan-agent/api_key");
                    ("api_key_env", VStr "HEXASCAN_API_KEY");
                    ("poll_interval", VInt 60);
                    ("timeout", VInt 30);
                    ("verify_ssl", VBool true) ]);
    ("permissions", VDict [ ("level", VStr "read_only");
                            ("allowed_paths", VList [VStr "/var/log"; VStr "/var/www"]);
                            ("denied_paths",
                             VList [VStr "/etc/shadow"; VStr "/root/.ssh"]) ]);
    ("checks",
     VDict [ ("system",
              VDict [ ("disk", VDict [ ("enabled", VBool true);
                                       ("warning_threshold", VInt 80);
                                       ("critical_threshold", VInt 90) ]);
                      ("cpu", VDict [ ("enabled", VBool true);
                                      ("warning_threshold", VInt 80);
                                      ("critical_threshold", VInt 95) ]);
                      ("memory", VDict [ ("enabled", VBool true);
                                         ("warning_threshold", VInt 85);
                                         ("critical_threshold", VInt 95) ]) ]) ]);
    ("logging", VDict [ ("level", VStr "INFO");
                        ("file", VStr "/var/log/hexascan-agent/agent.log");
                        ("max_size_mb", VInt 10);
                        ("backup_count", VInt 5) ]) ].

(** [result[key] = value] on a dict: a key already there keeps its place and
    takes the new value, a new key goes to the end. *)
Fixpoint dict_set (key : string) (v : value) (entries : list (string * value))
    : list (string * value) :=
  match entries with
  | [] => [(key, v)]
  | (k', v') :: rest =>
      if String.eqb key k' then (k', v) :: rest else (k', v') :: dict_set key v rest
  end.

(** [_deep_merge(base, override)] for the dict held by the value
    [override]: the recursive call is on a value of the override, so the
    recursion is written on the override as a value, with the [for] loop
    over its items inside. [result] starts as [base.copy()]. *)
Fixpoint deep_merge_value (override : value) (base : list (string * value))
    {struct override} : list (string * value) :=
  match override with
  | VDict entries =>
      (fix loop (items result : list (string * value)) {struct items}
         : list (string * value) :=
         match items with
         | [] => result
         | (key, v) :: rest =>
             loop rest
               match assoc key result, v with
               | Some (VDict sub), VDict _ =>
                   dict_set key (VDict (deep_merge_value v sub)) result
               | _, _ => dict_set key v result
               end
         end) entries base
  | _ => base
  end.

(** [_deep_merge], on two dicts as its signature has them. *)
Definition _deep_merge (base override : list (string * value))
    : list (string * value) :=
  deep_merge_value (VDict override) base.

(** [key in d and isinstance(d[key], dict) and isinstance(value, dict)]
    decides what one item of the override leaves under its key. *)
Definition merged_entry (base : list (string * value)) (key : string) (v : value)
    : value :=
  match assoc key base, v with
  | Some (VDict sub), VDict o => VDict (_deep_merge sub o)
  | _, _ => v
  end.

(** Every dict inside [v] has pairwise distinct keys, as a Python dict has. *)
Fixpoint distinct_keys (v : value) : bool :=
  match v with
  | VDict entries =>
      bool_decide (NoDup entries.*1)
      && (fix all (es : list (string * value)) : bool :=
            match es with
            | [] => true
            | (_, x) :: rest => distinct_keys x && all rest
            end) entries
  | VList items =>
      (fix all (xs : list value) : bool :=
         match xs with
         | [] => true
         | x :: rest => distinct_keys x && all rest
         end) items
  | _ => true
  end.

(** [d[k1][k2]...[kn]], [None] where a key is missing or a value on the way
    is not a dict. *)
Fixpoint lookup_path (path : list string) (v : value) : option value :=
  match path with
  | [] => Some v
  | k :: rest =>
      match v with
      | VDict entries =>
          match assoc k entries with
          | Some x => lookup_path rest x
          | None => None
          end
      | _ => None
      end
  end.

Definition is_dict (v : value) : bool :=
  match v with VDict _ => true | _ => false end.

(** The override says nothing about [path]: following [path] through the
    override's dicts, a key is missing. *)
Fixpoint untouched (path : list string) (override : list (string * value)) : bool :=
  match path with
  | [] => false
  | k :: rest =>
      match assoc k override with
      | None => true
      | Some (VDict o) => untouched rest o
      | Some _ => false
      end
  end.

Module Custom.

(** A configuration file that sets the server, the allowed paths and a new
    section. *)
Definition agent_yaml : list (string * value) :=
  [ ("api", VDict [ ("endpoint", VStr "https://hexascan.example/api/v1");
                    ("api_key_source", VStr "env") ]);
    ("permissions", VDict [ ("allowed_paths", VList [VStr "/srv"]) ]);
    ("tags", VList [VStr "eu"]) ].

(** A policy tighter than the default one. *)
Definition locked_down : AgentConfig :=
  {| name := "hexascan-agent"; version := "1.0.0";
     api := api Scenario.default_config;
     permissions := {| level := "read_only";
                       allowed_paths := ["/var/log"];
                       denied_paths := ["/etc/shadow"; "/root/.ssh"; "/var/www"] |} |}.

End Custom.

(* ===================================================================== *)
(** * Properties *)
(* ===================================================================== *)

(** ** Backoff policy *)

Section Backoff.

Implicit Types (error_type : string) (c : ApiClient.t).

Lemma backoff_subscript_in_range error_type (i : nat) :
  is_Some (backoff_list error_type
             !! Nat.min i (length (backoff_list error_type) - 1)).
Proof.
  unfold backoff_list. case_decide; destruct i as [|[|[|i]]]; simpl; eauto.
Qed.

Lemma get_backoff_interval_eq error_type c :
  get_backoff_interval error_type c =
    (table_at (backoff_list error_type) (start_index error_type c),
     ApiClient.mk (S (start_index error_type c)) (Some error_type)).
Proof.
  unfold get_backoff_interval, start_index, table_at.
  case_decide as Hne; simpl; [done|].
  destruct c as [i last]; simpl in *.
  destruct (decide (Some error_type = last)) as [<-|]; [done|].
  by destruct Hne.
Qed.

Lemma backoff_run_lookup error_type (n : nat) : ∀ c (k : nat),
  (k < n)%nat ->
  backoff_run error_type n c !! k =
    Some (table_at (backoff_list error_type) (start_index error_type c + k)).
Proof.
  induction n as [|n IH]; intros c k Hk; [lia|].
  cbn [backoff_run]. rewrite get_backoff_interval_eq.
  destruct k as [|k]; cbn [lookup list_lookup].
  - by rewrite Nat.add_0_r.
  - rewrite IH by lia. f_equal. f_equal.
    unfold start_index at 1. simpl. case_decide; [congruence|]. lia.
Qed.

Lemma backoff_run_length error_type (n : nat) : ∀ c,
  length (backoff_run error_type n c) = n.
Proof.
  induction n as [|n IH]; intros c; [done|].
  cbn [backoff_run]. rewrite get_backoff_interval_eq. simpl. by rewrite IH.
Qed.

Lemma table_at_mono error_type (i j : nat) :
  (i ≤ j)%nat ->
  table_at (backoff_list error_type) i ≤ table_at (backoff_list error_type) j.
Proof.
  intros Hij. unfold backoff_list, table_at. case_decide;
    destruct i as [|[|[|i]]]; destruct j as [|[|[|j]]]; simpl; lia.
Qed.

Lemma table_at_le_last error_type (i : nat) :
  ∃ m, last (backoff_list error_type) = Some m
       ∧ table_at (backoff_list error_type) i ≤ m.
Proof.
  unfold backoff_list, table_at. case_decide;
    destruct i as [|[|[|i]]]; simpl; eexists; (split; [reflexivity|lia]).
Qed.

Lemma table_at_0 error_type :
  Some (table_at (backoff_list error_type) 0) = head (backoff_list error_type).
Proof. unfold backoff_list, table_at. by case_decide. Qed.

Lemma handle_response_success response env s :
  200 ≤ Response.status_code response < 300 ->
  _handle_response response env s =
    (Returns (match Response.json response with
              | Some data => data
              | None =>
                  VDict [("message",
                          VStr (if String.eqb (Response.text response) ""
                                then "Unknown error" else Response.text response))]
              end),
     set_api_client (ApiClient.mk 0 None) s).
Proof.
  intros [Hlo Hhi]. unfold _handle_response.
  apply Z.leb_le in Hlo. apply Z.ltb_lt in Hhi. rewrite Hlo, Hhi. done.
Qed.

Lemma table_at_lookup error_type (i : nat) :
  Some (table_at (backoff_list error_type) i)
  = backoff_list error_type !! Nat.min i (length (backoff_list error_type) - 1).
Proof.
  unfold table_at.
  by destruct (backoff_subscript_in_range error_type i) as [x ->].
Qed.

(** C3. Consecutive calls of [get_backoff_interval] with one error type
    return a non-decreasing sequence of intervals, none above the last
    entry of that type's table. A successful response (2xx) resets the
    client's backoff state to index 0 and no error type, after which a call
    for any error type returns the first entry of its table and leaves index
    1 for that type. A call with an error type other than the last one
    recorded resets the index for the new type: it returns the first entry
    of the new type's table whatever the index was, records the new type
    with index 1, and the calls that follow walk the table from its start.
    A call with the error type last recorded reads the table at the current
    index (capped at the last entry) and increments the index. *)
Theorem backoff_monotone_bounded_and_reset error_type c (n : nat) :
  let run := backoff_run error_type n c in
  (∀ (i j : nat) a b,
      (i ≤ j)%nat -> run !! i = Some a -> run !! j = Some b -> a ≤ b)
  ∧ (∃ m, last (backoff_list error_type) = Some m
          ∧ ∀ (i : nat) a, run !! i = Some a -> a ≤ m)
  ∧ (∀ response env s,
        200 ≤ Response.status_code response < 300 ->
        let s' := snd (_handle_response response env s) in
        api_client s' = ApiClient.mk 0 None
        ∧ ∀ other,
            Some (fst (get_backoff_interval other (api_client s')))
            = head (backoff_list other)
            ∧ snd (get_backoff_interval other (api_client s'))
              = ApiClient.mk 1 (Some other))
  ∧ (ApiClient._last_error_type c ≠ Some error_type ->
     Some (fst (get_backoff_interval error_type c))
     = head (backoff_list error_type)
     ∧ snd (get_backoff_interval error_type c) = ApiClient.mk 1 (Some error_type)
     ∧ ∀ k : nat, (k < n)%nat ->
         run !! k
         = backoff_list error_type
             !! Nat.min k (length (backoff_list error_type) - 1))
  ∧ (ApiClient._last_error_type c = Some error_type ->
     Some (fst (get_backoff_interval error_type c))
     = backoff_list error_type
         !! Nat.min (ApiClient._current_backoff_index c)
                    (length (backoff_list error_type) - 1)
     ∧ snd (get_backoff_interval error_type c)
       = ApiClient.mk (S (ApiClient._current_backoff_index c)) (Some error_type)
     ∧ ∀ k : nat, (k < n)%nat ->
         run !! k
         = backoff_list error_type
             !! Nat.min (ApiClient._current_backoff_index c + k)
                        (length (backoff_list error_type) - 1)).
Proof.
  intros run. split; [|split; [|split; [|split]]].
  - intros i j a b Hij Hi Hj.
    assert (j < n)%nat as Hjn.
    { apply lookup_lt_Some in Hj. unfold run in Hj.
      by rewrite backoff_run_length in Hj. }
    unfold run in Hi, Hj.
    rewrite backoff_run_lookup in Hi by lia.
    rewrite backoff_run_lookup in Hj by lia.
    simplify_eq. apply table_at_mono. lia.
  - destruct (table_at_le_last error_type 0) as (m & Hm & _).
    exists m. split; [done|]. intros i a Hi.
    assert (i < n)%nat as Hin.
    { apply lookup_lt_Some in Hi. unfold run in Hi.
      by rewrite backoff_run_length in Hi. }
    unfold run in Hi. rewrite backoff_run_lookup in Hi by lia. simplify_eq.
    destruct (table_at_le_last error_type (start_index error_type c + i))
      as (m' & Hm' & Hle).
    congruence.
  - intros response env s Hok s'. subst s'.
    rewrite handle_response_success by done.
    split; [done|]. intros other.
    rewrite get_backoff_interval_eq. split; [apply table_at_0|done].
  - intros Hne.
    assert (start_index error_type c = O) as Hstart.
    { unfold start_index. case_decide; [done|congruence]. }
    rewrite get_backoff_interval_eq, Hstart. cbn [fst snd].
    split; [apply table_at_0|]. split; [done|].
    intros k Hk. unfold run. rewrite backoff_run_lookup by done.
    rewrite Hstart. apply table_at_lookup.
  - intros Heq.
    assert (start_index error_type c = ApiClient._current_backoff_index c) as Hstart.
    { unfold start_index. case_decide; [congruence|done]. }
    rewrite get_backoff_interval_eq, Hstart. cbn [fst snd].
    split; [apply table_at_lookup|]. split; [done|].
    intros k Hk. unfold run. rewrite backoff_run_lookup by done.
    rewrite Hstart. apply table_at_lookup.
Qed.

Lemma backoff_monotone_bounded_and_reset_witness :
  (Some (fst (get_backoff_interval "rate_limit" (ApiClient.mk 2 (Some "server_error"))))
   = head (backoff_list "rate_limit")
   ∧ snd (get_backoff_interval "rate_limit" (ApiClient.mk 2 (Some "server_error")))
     = ApiClient.mk 1 (Some "rate_limit")
   ∧ ∀ k : nat, (k < 4)%nat ->
       backoff_run "rate_limit" 4 (ApiClient.mk 2 (Some "server_error")) !! k
       = backoff_list "rate_limit"
           !! Nat.min k (length (backoff_list "rate_limit") - 1))
  ∧ api_client (snd (_handle_response (Response.mk 200 None "" NoRetryAfter)
                       (Scenario.server Scenario.no_tasks Scenario.no_tasks)
                       (set_api_client (ApiClient.mk 2 (Some "server_error"))
                                       Scenario.started)))
    = ApiClient.mk 0 None.
Proof.
  destruct (backoff_monotone_bounded_and_reset
              "rate_limit" (ApiClient.mk 2 (Some "server_error")) 4)
    as (_ & _ & Hreset & Hswitch & _).
  split.
  - apply Hswitch. simpl. discriminate.
  - apply Hreset. simpl. lia.
Defined.

End Backoff.

(** ** Status map *)

Lemma status_map_lookup_unknown (v : string) :
  v ∉ ["passed"; "warning"; "critical"; "error"; "failed"] ->
  status_map !! v = None.
Proof.
  intros Hv. unfold status_map. cbn [list_to_map foldr fst snd curry].
  repeat (rewrite lookup_insert_ne; [|intros <-; apply Hv; set_solver]).
  apply lookup_empty.
Qed.

(** C5. The status map sends passed, warning and critical to their
    upper-case wire status, error and failed to ERROR, and every other
    status value to the default ERROR; the result is always one of the four
    wire statuses. *)
Theorem status_map_total_with_error_default :
  (∀ s : CheckStatus,
      status_map_get (status_value s) =
        match s with
        | PASSED => "PASSED"
        | WARNING => "WARNING"
        | CRITICAL => "CRITICAL"
        | ERROR => "ERROR"
        | FAILED => "ERROR"
        end)
  ∧ (∀ v : string,
        v ∉ ["passed"; "warning"; "critical"; "error"; "failed"] ->
        status_map_get v = "ERROR")
  ∧ (∀ v : string,
        status_map_get v ∈ ["PASSED"; "WARNING"; "CRITICAL"; "ERROR"]).
Proof.
  split; [|split].
  - by intros [].
  - intros v Hv. unfold status_map_get. by rewrite status_map_lookup_unknown.
  - intros v. unfold status_map_get.
    destruct (decide (v ∈ ["passed"; "warning"; "critical"; "error"; "failed"]))
      as [Hin|Hout].
    + repeat (apply elem_of_cons in Hin as [->|Hin]; [vm_compute; set_solver|]).
      by apply elem_of_nil in Hin.
    + rewrite status_map_lookup_unknown by done. set_solver.
Qed.

Lemma status_map_total_with_error_default_witness :
  status_map_get "skipped" = "ERROR".
Proof.
  apply (proj1 (proj2 status_map_total_with_error_default) "skipped").
  vm_compute. intros H. repeat (apply elem_of_cons in H as [H|H]; [discriminate|]).
  by apply elem_of_nil in H.
Defined.

(** ** Check registry *)

(** C7. For a registered check type whose class builds an instance from the
    given configuration, [create] returns that instance (never [None]); for
    an unregistered type it returns [None] and does not raise. *)
Theorem create_registered_or_none
    (check_type : string) (config : value) (_checks : gmap string CheckClass) :
  (∀ check_class check,
      CheckRegistry.get check_type _checks = Some check_class ->
      construct check_class config = Returns check ->
      CheckRegistry.create check_type config _checks = Returns (Some check))
  ∧ (CheckRegistry.get check_type _checks = None ->
     CheckRegistry.create check_type config _checks = Returns None).
Proof.
  unfold CheckRegistry.create. split.
  - intros check_class check -> ->. done.
  - intros ->. done.
Qed.

Lemma create_registered_or_none_witness :
  (∃ check, CheckRegistry.create "CPU_USAGE" (VDict [])
              {["CPU_USAGE" := Scenario.passing_check]} = Returns (Some check))
  ∧ CheckRegistry.create "NO_SUCH_CHECK" (VDict [])
      {["CPU_USAGE" := Scenario.passing_check]} = Returns None.
Proof.
  destruct (create_registered_or_none "CPU_USAGE" (VDict [])
              {["CPU_USAGE" := Scenario.passing_check]}) as [Hreg _].
  destruct (create_registered_or_none "NO_SUCH_CHECK" (VDict [])
              {["CPU_USAGE" := Scenario.passing_check]}) as [_ Hnone].
  split.
  - eexists. eapply Hreg; reflexivity.
  - apply Hnone. reflexivity.
Defined.

(** C9. Registering a second class under a check type that is already
    registered replaces the first: lookup returns the second class, [create]
    builds from it, and the registry is the one obtained by registering the
    second class alone. *)
Theorem register_last_registration_wins
    (check_type : string) (F1 F2 : CheckClass) (config : value)
    (_checks : gmap string CheckClass) :
  let registry :=
    CheckRegistry.register check_type F2
      (CheckRegistry.register check_type F1 _checks) in
  CheckRegistry.get check_type registry = Some F2
  ∧ CheckRegistry.create check_type config registry =
      match construct F2 config with
      | Returns check => Returns (Some check)
      | Raises e => Raises e
      end
  ∧ registry = CheckRegistry.register check_type F2 _checks.
Proof.
  unfold CheckRegistry.create, CheckRegistry.get, CheckRegistry.register.
  cbn zeta. rewrite lookup_insert_eq. split; [done|]. split; [done|].
  apply insert_insert_eq.
Qed.

(** ** Path permissions *)

Lemma starts_with_any_Exists (abspath : string -> string) (path : string)
    (entries : list string) :
  starts_with_any abspath path entries = true
  <-> Exists (λ p, startswith path (abspath p) = true) entries.
Proof.
  induction entries as [|p rest IH]; simpl.
  - split; [discriminate|]. by intros ?%Exists_nil.
  - rewrite Exists_cons. destruct (startswith path (abspath p)); [tauto|].
    rewrite IH. split; [tauto|]. by intros [?|?].
Qed.

(** C10. [is_path_allowed] denies by default and gives denied prefixes the
    priority: a path whose absolute form starts with the absolute form of a
    denied entry is refused whatever the allowed list says; any other path
    is accepted exactly when its absolute form starts with the absolute form
    of an allowed entry. *)
Theorem is_path_allowed_default_deny
    (abspath : string -> string) (cfg : AgentConfig) (path : string) :
  let matches (entries : list string) :=
    Exists (λ p, startswith (abspath path) (abspath p) = true) entries in
  (matches (denied_paths (permissions cfg)) ->
   is_path_allowed abspath cfg path = false)
  ∧ (¬ matches (denied_paths (permissions cfg)) ->
     (is_path_allowed abspath cfg path = true
      <-> matches (allowed_paths (permissions cfg)))).
Proof.
  intros matches. unfold is_path_allowed, matches. split.
  - intros Hd%starts_with_any_Exists. by rewrite Hd.
  - intros Hd. rewrite <- starts_with_any_Exists in Hd.
    destruct (starts_with_any abspath (abspath path) (denied_paths _));
      [by destruct Hd|].
    rewrite <- starts_with_any_Exists.
    by destruct (starts_with_any abspath (abspath path) (allowed_paths _)).
Qed.

Lemma is_path_allowed_default_deny_witness :
  is_path_allowed (posixpath.abspath "/") Scenario.default_config
    "/var/log/../../etc/shadow" = false
  ∧ (is_path_allowed (posixpath.abspath "/") Scenario.default_config "/tmp/x" = true
     <-> Exists (λ p, startswith (posixpath.abspath "/" "/tmp/x")
                                 (posixpath.abspath "/" p) = true)
                (allowed_paths (permissions Scenario.default_config))).
Proof.
  split.
  - apply (is_path_allowed_default_deny (posixpath.abspath "/")
             Scenario.default_config "/var/log/../../etc/shadow").
    apply Exists_cons_hd. reflexivity.
  - apply (is_path_allowed_default_deny (posixpath.abspath "/")
             Scenario.default_config "/tmp/x").
    intros H. repeat (apply Exists_cons in H as [H|H]; [discriminate H|]).
    by apply Exists_nil in H.
Defined.

(** ** Task parsing *)

Lemma task_of_by_truth (entries : list (string * value)) :
  has_required_keys entries ->
  task_of (VDict entries) = Returns (task_by_truth entries).
Proof.
  intros ([check_id Hc] & [check_type Ht] & [site_id Hs]).
  unfold task_of, task_by_truth, id_by_truth, config_by_truth.
  unfold mbind. cbn [py_get py_getitem Outcome_bind].
  rewrite Hc, Ht, Hs. cbn [from_option].
  destruct (assoc "taskId" entries) as [a|]; cbn [from_option id truthy];
    [destruct (truthy a)|];
    (destruct (assoc "checkConfig" entries) as [c|]; cbn [from_option id truthy];
     [destruct (truthy c)|]); reflexivity.
Qed.

Lemma tasks_of_by_truth (objs : list (list (string * value))) :
  Forall has_required_keys objs ->
  tasks_of (VDict <$> objs) = Returns (task_by_truth <$> objs).
Proof.
  induction 1 as [|entries objs Hreq _ IH]; [done|].
  cbn [fmap list_fmap tasks_of]. rewrite task_of_by_truth by done.
  unfold mbind at 1. cbn [Outcome_bind]. change (list_fmap _ _ VDict objs) with (VDict <$> objs).
  rewrite IH. done.
Qed.

(** Where every present ['taskId'] and ['checkConfig'] is truthy, reading
    "present" literally gives the same task. *)
Lemma by_truth_agrees_with_presence (entries : list (string * value)) :
  (∀ v, assoc "taskId" entries = Some v -> truthy v = true) ->
  (∀ v, assoc "checkConfig" entries = Some v -> truthy v = true) ->
  id_by_truth entries = id_by_presence entries
  ∧ config_by_truth entries = config_by_presence entries.
Proof.
  intros Hid Hcfg. unfold id_by_truth, id_by_presence, config_by_truth,
    config_by_presence.
  destruct (assoc "taskId" entries) as [a|];
    [rewrite (Hid a eq_refl)|];
    (destruct (assoc "checkConfig" entries) as [c|];
     [rewrite (Hcfg c eq_refl)|]); done.
Qed.

(** C8, as the claim words it, fails: for a task object whose ['taskId'] is
    present but empty and whose ['checkConfig'] is present but empty,
    [get_tasks] takes the identifier from ['id'] and the configuration from
    ['config']. *)
Lemma get_tasks_by_presence_counterexample :
  ∃ task,
    fst (get_tasks (Scenario.server (Scenario.one_task Scenario.both_spellings)
                                    Scenario.no_tasks)
                   Scenario.started) = Returns [task]
    ∧ Task.id task ≠ id_by_presence Scenario.both_spellings
    ∧ Task.config task ≠ config_by_presence Scenario.both_spellings.
Proof.
  eexists. split; [vm_compute; reflexivity|]. split; vm_compute; discriminate.
Qed.

(** C8, amended. On a successful response whose body holds a list of task
    objects under data.tasks, each with the mandatory keys, [get_tasks]
    returns one task per object, in order; its id is the value of ['taskId']
    when that key is present with a truthy value and otherwise the value of
    ['id'] ([None] when absent); its config is the value of ['checkConfig']
    when present with a truthy value and otherwise the value of ['config']
    (an empty map when absent). *)
Theorem get_tasks_accepts_both_conventions
    (env : Env) (s : Agent) (response : Response.t)
    (body data : list (string * value)) (objs : list (list (string * value))) :
  transport env (requests s) = Responds response ->
  200 ≤ Response.status_code response < 300 ->
  Response.json response = Some (VDict body) ->
  assoc "data" body = Some (VDict data) ->
  assoc "tasks" data = Some (VList (VDict <$> objs)) ->
  Forall has_required_keys objs ->
  fst (get_tasks env s) = Returns (task_by_truth <$> objs).
Proof.
  intros Htr Hok Hjson Hdata Htasks Hreq.
  unfold get_tasks, _request, emit, modify, gets, ask, lift.
  unfold mbind, M_bind. cbn beta iota. cbn [requests record]. rewrite Htr.
  rewrite handle_response_success by done. rewrite Hjson.
  cbn [fst]. unfold parse_tasks, mbind. cbn [py_get Outcome_bind].
  rewrite Hdata. cbn [from_option id py_get Outcome_bind]. rewrite Htasks.
  cbn [from_option id py_iter Outcome_bind]. by apply tasks_of_by_truth.
Qed.

Lemma get_tasks_accepts_both_conventions_witness :
  fst (get_tasks (Scenario.server (Scenario.one_task Scenario.both_spellings)
                                  Scenario.no_tasks)
                 Scenario.started)
  = Returns [task_by_truth Scenario.both_spellings].
Proof.
  apply (get_tasks_accepts_both_conventions
           (Scenario.server (Scenario.one_task Scenario.both_spellings)
                            Scenario.no_tasks)
           Scenario.started
           (Response.mk 200
              (Some (VDict [("data", VDict [("tasks",
                                             VList [VDict Scenario.both_spellings])])]))
              "" NoRetryAfter)
           [("data", VDict [("tasks", VList [VDict Scenario.both_spellings])])]
           [("tasks", VList [VDict Scenario.both_spellings])]
           [Scenario.both_spellings]).
  - reflexivity.
  - simpl. lia.
  - reflexivity.
  - reflexivity.
  - reflexivity.
  - repeat constructor; vm_compute; eauto.
Defined.

(** ** Reasoning about runs *)

Section Post.

Context {A : Type}.
Implicit Types (m : M A) (env : Env) (s : Agent) (Q : Outcome A -> Agent -> Prop).

Lemma post_mono m env s Q Q' :
  post m env s Q -> (∀ o s', Q o s' -> Q' o s') -> post m env s Q'.
Proof. unfold post. auto. Qed.

Lemma post_ret (a : A) env s Q : Q (Returns a) s -> post (mret a) env s Q.
Proof. done. Qed.

Lemma post_raise (e : exn) env s Q : Q (Raises e) s -> post (raise e) env s Q.
Proof. done. Qed.

Lemma post_lift (o : Outcome A) env s Q : Q o s -> post (lift o) env s Q.
Proof. done. Qed.

Lemma post_gets (f : Agent -> A) env s Q : Q (Returns (f s)) s -> post (gets f) env s Q.
Proof. done. Qed.

Lemma post_bind {B} (m' : M B) (f : B -> M A) env s Q :
  post m' env s (λ o s', match o with
                         | Returns b => post (f b) env s' Q
                         | Raises e => Q (Raises e) s'
                         end) ->
  post (m' ≫= f) env s Q.
Proof.
  unfold post, mbind, M_bind. by destruct (m' env s) as [[b|e] s'].
Qed.

Lemma post_try m (handler : exn -> option (M A)) env s Q :
  post m env s (λ o s', match o with
                        | Returns a => Q (Returns a) s'
                        | Raises e =>
                            match handler e with
                            | Some h => post h env s' Q
                            | None => Q (Raises e) s'
                            end
                        end) ->
  post (try_except m handler) env s Q.
Proof.
  unfold post, try_except. destruct (m env s) as [[a|e] s']; simpl; [done|].
  destruct (handler e); simpl; auto.
Qed.

End Post.

Lemma post_ask env s (Q : Outcome Env -> Agent -> Prop) :
  Q (Returns env) s -> post ask env s Q.
Proof. done. Qed.

Lemma post_modify (f : Agent -> Agent) env s (Q : Outcome unit -> Agent -> Prop) :
  Q (Returns tt) (f s) -> post (modify f) env s Q.
Proof. done. Qed.

Lemma post_emit (ev : Event) env s (Q : Outcome unit -> Agent -> Prop) :
  Q (Returns tt) (record ev s) -> post (emit ev) env s Q.
Proof. done. Qed.

Lemma not_ApiError_loop_handler (e : exn) :
  is_ApiError e = false -> loop_handler e = Some (time_sleep 60).
Proof. by destruct e. Qed.

(** ** The API client, one call at a time *)

Lemma handle_response_spec response env s :
  post (_handle_response response) env s (λ o s',
    same_control s s' ∧ trace s' = trace s ∧ requests s' = requests s).
Proof.
  unfold _handle_response, message_of.
  destruct (_ && _); [done|].
  destruct (_ || _).
  { apply post_bind, post_lift. by destruct (py_get _ _ _). }
  destruct (_ =? 429).
  { apply post_bind. destruct (Response.retry_after response); [| |done];
      (apply post_ret, post_bind, post_lift; by destruct (py_get _ _ _)). }
  destruct (500 <=? _);
    (apply post_bind, post_lift; by destruct (py_get _ _ _)).
Qed.

Lemma request_spec env s :
  post _request env s (λ o s',
    same_control s s' ∧ trace s' = trace s ∧ requests s' = S (requests s)
    ∧ (answer_within_api (transport env (requests s)) ->
       match o with Returns _ => True | Raises e => is_ApiError e = true end)).
Proof.
  unfold _request. apply post_bind, post_ask, post_bind, post_gets,
    post_bind, post_modify.
  destruct (transport env (requests s)) as [response|reason] eqn:Ht.
  - pose proof (handle_response_spec response env (count_request s)) as H.
    unfold post in *. destruct H as (Hc & Htr & Hreq).
    split; [done|]. split; [done|]. split; [done|].
    intros Hw. destruct (_handle_response _ _ _).1 eqn:Ho; [done|].
    by eapply Hw.
  - by apply post_raise.
Qed.

Lemma submit_result_spec (result : TaskResult.t) env s :
  post (submit_result result) env s (λ o s',
    same_control s s' ∧ trace s' = EvSubmitResult result :: trace s
    ∧ requests s' = S (requests s)
    ∧ (answer_within_api (transport env (requests s)) ->
       match o with Returns _ => True | Raises e => is_ApiError e = true end)).
Proof.
  unfold submit_result. apply post_bind, post_emit.
  eapply post_mono; [apply request_spec|]. by intros o s' (? & ? & ? & ?).
Qed.

Lemma submit_error_result_spec task message duration env s :
  post (_submit_error_result task message duration) env s (λ o s',
    same_control s s'
    ∧ trace s' = EvSubmitResult (TaskResult.mk (Task.id task) "ERROR" 0
                                   (Some message) None (Some duration)) :: trace s
    ∧ requests s' = S (requests s)
    ∧ escapes_api_handlers o
    ∧ (answer_within_api (transport env (requests s)) -> o = Returns tt)).
Proof.
  unfold _submit_error_result. apply post_try, post_bind.
  eapply post_mono; [apply submit_result_spec|].
  intros [v|e] s' (Hc & Ht & Hr & Hw); [by apply post_ret|].
  destruct (is_ApiError e) eqn:He; [by apply post_ret|].
  repeat (split; [done|]). intros Hin. apply Hw in Hin. congruence.
Qed.

(** ** Per-task dispatch, for every task and every environment *)

Lemma post_time env s (Q : Outcome Z -> Agent -> Prop) :
  Q (Returns (clock env (clock_reads s))) (tick_clock s) -> post time_time env s Q.
Proof. done. Qed.

Lemma check_paths_spec task start_time (paths : list value) env : ∀ s,
  post (check_paths task start_time paths) env s (λ o s',
    same_control s s'
    ∧ ((o = Returns false ∧ trace s' = trace s ∧ requests s' = requests s
        ∧ Forall (λ p, ¬ denied env p) paths)
       ∨ (∃ e, o = Raises e ∧ is_ApiError e = false
               ∧ trace s' = trace s ∧ requests s' = requests s)
       ∨ (∃ r, trace s' = EvSubmitResult r :: trace s
               ∧ TaskResult.status r = "ERROR"
               ∧ requests s' = S (requests s)
               ∧ (o = Returns true
                  ∨ ∃ e, o = Raises e ∧ is_ApiError e = false
                         ∧ ¬ answer_within_api (transport env (requests s)))))).
Proof.
  induction paths as [|path rest IH]; intros s.
  { apply post_ret. split; [done|]. left. by repeat split. }
  cbn [check_paths]. apply post_bind. unfold config_is_path_allowed.
  apply post_bind, post_ask.
  destruct path as [| | |p| |];
    try (apply post_raise; split; [done|]; right; left; by eexists).
  apply post_ret.
  destruct (is_path_allowed (abspath env) (config env) p) eqn:Hallowed;
    cbn [negb].
  - eapply post_mono; [apply IH|]. intros o s' (Hc & Hcases).
    split; [done|].
    destruct Hcases as [(-> & ? & ? & Hrest)|[?|?]]; [left|by right; left|by right; right].
    repeat (split; [done|]). constructor; [|done].
    intros (p' & [= <-] & Hp'). congruence.
  - apply post_bind, post_time, post_bind.
    eapply post_mono; [apply submit_error_result_spec|].
    intros o s' (Hc & Ht & Hr & Hesc & Hw).
    destruct o as [[]|e].
    + apply post_ret. split; [done|]. right; right. eexists.
      repeat (split; [done|]). by left.
    + split; [done|]. right; right. eexists.
      repeat (split; [done|]). right. exists e. repeat (split; [done|]).
      intros Hin. by specialize (Hw Hin).
Qed.

Lemma registry_create_spec (check_type config : value) env s :
  post (registry_create check_type config) env s (λ o s',
    same_control s s' ∧ trace s' = EvCreate check_type config :: trace s
    ∧ requests s' = requests s).
Proof.
  unfold registry_create. apply post_bind, post_ask, post_bind, post_emit.
  destruct check_type; done.
Qed.

Lemma run_execute_spec (check : BaseCheck) env s :
  post (run_execute check) env s (λ o s',
    same_control s s' ∧ trace s' = EvExecute :: trace s
    ∧ requests s' = requests s).
Proof. done. Qed.

(** The [except Exception] clause of [_execute_task]. *)
Lemma report_failure_spec task (e : exn) (start_time : Z) env s :
  post (now ← time_time;
        _submit_error_result task (exn_str e) (duration_ms now start_time)) env s
    (λ o s',
       same_control s s'
       ∧ (∃ r, trace s' = EvSubmitResult r :: trace s
               ∧ TaskResult.status r = "ERROR")
       ∧ escapes_api_handlers o
       ∧ (answer_within_api (transport env (requests s)) -> o = Returns tt)).
Proof.
  apply post_bind, post_time.
  eapply post_mono; [apply submit_error_result_spec|].
  intros o s' (Hc & Ht & Hr & Hesc & Hw). eauto 10.
Qed.

Lemma count_error_submit (r : TaskResult.t) :
  TaskResult.status r = "ERROR" -> is_error_submit (EvSubmitResult r) = true.
Proof. intros Hr. cbn. by rewrite Hr. Qed.

Lemma task_events_count (p : Event -> bool) (evs : list Event) :
  (∀ ev, is_submit ev = true ∨ is_check_event ev = true -> p ev = false) ->
  task_events evs -> count p evs = O.
Proof.
  intros Hp. induction 1 as [|ev evs Hev _ IH]; [done|].
  cbn [count]. by rewrite (Hp ev Hev).
Qed.

Lemma names_denied_path_inv env task task_paths paths :
  py_get (Task.config task) "paths" (VList []) = Returns task_paths ->
  py_iter task_paths = Returns paths ->
  Forall (λ p, ¬ denied env p) paths ->
  ¬ names_denied_path env task.
Proof.
  intros Hget Hiter Hall (task_paths' & paths' & Hget' & Hiter' & Hex).
  rewrite Hget in Hget'. injection Hget' as <-.
  rewrite Hiter in Hiter'. injection Hiter' as <-.
  apply Exists_exists in Hex as (p & Hin & Hp).
  rewrite Forall_forall in Hall. by eapply Hall.
Qed.

(** For every task, every environment and every state, [_execute_task]
    leaves the control state alone, lets no [ApiError] out, produces only
    submissions and check events, and calls [submit_result] once or twice.
    When the task names a denied path, no check is created or executed and
    every submitted result is an Error result; it is a single one, and the
    call returns, whenever the server's answer to it makes [_request] return
    or raise an ApiError. *)
Theorem execute_task_dispatched task env s :
  post (_execute_task task) env s (dispatched env task s).
Proof.
  unfold _execute_task. apply post_bind, post_time.
  set (start_time := clock env (clock_reads s)).
  assert (same_control s (tick_clock s) ∧ trace (tick_clock s) = trace s
          ∧ requests (tick_clock s) = requests s) as (Hc0 & Ht0 & Hr0) by done.
  generalize dependent (tick_clock s). intros s0 Hc0 Ht0 Hr0.
  apply post_try, post_bind, post_lift.
  destruct (py_get (Task.config task) "paths" (VList [])) as [task_paths|e] eqn:Hget.
  2: { cbn beta iota. eapply post_mono; [apply report_failure_spec|].
       intros o s' (Hc & (r & Ht & Hst) & Hesc & Hw).
       dispatched_with [EvSubmitResult r].
       intros (? & ? & ? & _). congruence. }
  apply post_bind, post_lift.
  destruct (py_iter task_paths) as [paths|e] eqn:Hiter.
  2: { cbn beta iota. eapply post_mono; [apply report_failure_spec|].
       intros o s' (Hc & (r & Ht & Hst) & Hesc & Hw).
       dispatched_with [EvSubmitResult r].
       intros (? & ? & ? & ? & _). congruence. }
  apply post_bind. eapply post_mono; [apply check_paths_spec|].
  intros o1 s1 (Hc1 & Hcases).
  destruct Hcases as [(-> & Ht1 & Hr1 & Hall)
                     |[(e & -> & He & Ht1 & Hr1)
                      |(r1 & Ht1 & Hst1 & Hr1 & [->|(e & -> & He & Hnw)])]].
  - (* every path is allowed *)
    pose proof (names_denied_path_inv env task _ _ Hget Hiter Hall) as Hnot.
    apply post_bind. eapply post_mono; [apply registry_create_spec|].
    intros o2 s2 (Hc2 & Ht2 & Hr2). destruct o2 as [[check|]|e].
    + apply post_bind. eapply post_mono; [apply run_execute_spec|].
      intros o3 s3 (Hc3 & Ht3 & Hr3). destruct o3 as [result|e].
      * apply post_bind, post_time, post_bind.
        eapply post_mono; [apply submit_result_spec|].
        intros o4 s4 (Hc4 & Ht4 & Hr4 & _). destruct o4 as [v|e].
        -- apply post_ret.
           dispatched_with [EvSubmitResult
             (TaskResult.mk (Task.id task)
                (status_map_get (status_value (CheckResult.status result)))
                (CheckResult.score result) (Lit <$> CheckResult.message result)
                (Some (CheckResult.details result))
                (Some (duration_ms (clock env (clock_reads s3)) start_time)));
             EvExecute; EvCreate (Task.check_type task) (Task.config task)].
           done.
        -- cbn beta iota. eapply post_mono; [apply report_failure_spec|].
           intros o s' (Hc & (r & Ht & Hst) & Hesc & Hw).
           dispatched_with [EvSubmitResult r; EvSubmitResult
             (TaskResult.mk (Task.id task)
                (status_map_get (status_value (CheckResult.status result)))
                (CheckResult.score result) (Lit <$> CheckResult.message result)
                (Some (CheckResult.details result))
                (Some (duration_ms (clock env (clock_reads s3)) start_time)));
             EvExecute; EvCreate (Task.check_type task) (Task.config task)].
           done.
      * cbn beta iota. eapply post_mono; [apply report_failure_spec|].
        intros o s' (Hc & (r & Ht & Hst) & Hesc & Hw).
        dispatched_with [EvSubmitResult r; EvExecute;
                         EvCreate (Task.check_type task) (Task.config task)].
        done.
    + apply post_bind, post_time.
      eapply post_mono; [apply submit_error_result_spec|].
      intros o3 s3 (Hc3 & Ht3 & Hr3 & Hesc3 & Hw3). destruct o3 as [[]|e].
      * dispatched_with [EvSubmitResult
             (TaskResult.mk (Task.id task) "ERROR" 0
                (Some (Cat (Lit "Unknown check type: ") (StrOf (Task.check_type task))))
                None (Some (duration_ms (clock env (clock_reads s2)) start_time)));
             EvCreate (Task.check_type task) (Task.config task)].
        done.
      * cbn beta iota. eapply post_mono; [apply report_failure_spec|].
        intros o s' (Hc & (r & Ht & Hst) & Hesc & Hw).
        dispatched_with [EvSubmitResult r; EvSubmitResult
             (TaskResult.mk (Task.id task) "ERROR" 0
                (Some (Cat (Lit "Unknown check type: ") (StrOf (Task.check_type task))))
                None (Some (duration_ms (clock env (clock_reads s2)) start_time)));
             EvCreate (Task.check_type task) (Task.config task)].
        done.
    + cbn beta iota. eapply post_mono; [apply report_failure_spec|].
      intros o s' (Hc & (r & Ht & Hst) & Hesc & Hw).
      dispatched_with [EvSubmitResult r;
                       EvCreate (Task.check_type task) (Task.config task)].
      done.
  - (* a path that is no string: TypeError before any submission *)
    cbn beta iota. eapply post_mono; [apply report_failure_spec|].
    intros o s' (Hc & (r & Ht & Hst) & Hesc & Hw).
    dispatched_with [EvSubmitResult r].
    intros _. cbn [count is_check_event]. rewrite count_error_submit by done.
    split; [done|]. split; [done|]. intros Hin. split; [done|].
    apply Hw. congruence.
  - (* a denied path, reported *)
    apply post_ret. dispatched_with [EvSubmitResult r1].
    intros _. cbn [count is_check_event]. rewrite count_error_submit by done.
    done.
  - (* a denied path whose report raised something that is no ApiError *)
    cbn beta iota. eapply post_mono; [apply report_failure_spec|].
    intros o s' (Hc & (r & Ht & Hst) & Hesc & Hw).
    dispatched_with [EvSubmitResult r; EvSubmitResult r1].
    intros _. cbn [count is_check_event]. rewrite !count_error_submit by done.
    split; [done|]. split; [done|]. intros Hin. destruct Hnw. congruence.
Qed.

(** ** The polling loop, for every environment *)

Lemma count_app (p : Event -> bool) (evs evs' : list Event) :
  count p (evs ++ evs') = (count p evs + count p evs')%nat.
Proof.
  induction evs as [|ev evs IH]; [done|].
  cbn [app count]. destruct (p ev); lia.
Qed.

Lemma heartbeat_spec env s :
  post heartbeat env s (λ o s',
    same_control s s' ∧ trace s' = EvHeartbeat :: trace s).
Proof.
  unfold heartbeat. apply post_bind, post_emit.
  eapply post_mono; [apply request_spec|]. by intros o s' (? & ? & _).
Qed.

Lemma send_heartbeat_spec env s :
  post _send_heartbeat env s (λ o s',
    running s' = running s
    ∧ last_heartbeat s' = last_heartbeat s
    ∧ (_current_poll_interval s' = _current_poll_interval s
       ∨ _current_poll_interval s' = poll_interval (api (config env)))
    ∧ trace s' = EvHeartbeat :: trace s
    ∧ escapes_api_handlers o).
Proof.
  unfold _send_heartbeat. apply post_try, post_bind.
  eapply post_mono; [apply heartbeat_spec|].
  intros [v|e] s' ((Hrun & Hpoll & Hlast) & Ht).
  - apply post_bind, post_ask, post_modify. cbn. eauto 10.
  - destruct (is_ApiError e) eqn:He; [apply post_ret|]; cbn; eauto 10.
Qed.

Lemma poll_tasks_spec env s :
  post _poll_tasks env s (λ o s',
    same_control s s' ∧ trace s' = EvGetTasks :: trace s
    ∧ escapes_api_handlers o).
Proof.
  unfold _poll_tasks, get_tasks. apply post_try, post_bind, post_emit, post_bind.
  eapply post_mono; [apply request_spec|].
  intros [response|e] s' (Hc & Ht & _).
  - apply post_lift. destruct (parse_tasks response) as [tasks|e]; [done|].
    destruct (is_ApiError e) eqn:He; [by apply post_ret|done].
  - destruct (is_ApiError e) eqn:He; [by apply post_ret|done].
Qed.

Lemma execute_tasks_spec (tasks : list Task.t) env : ∀ s,
  post (execute_tasks tasks) env s (λ o s',
    same_control s s' ∧ escapes_api_handlers o
    ∧ ∃ evs, trace s' = (evs ++ trace s)%list ∧ task_events evs).
Proof.
  induction tasks as [|task rest IH]; intros s.
  { apply post_ret. repeat (split; [done|]). exists []. split; [done|constructor]. }
  cbn [execute_tasks]. apply post_bind, post_gets.
  destruct (running s); cbn [negb].
  2: { apply post_ret. repeat (split; [done|]). exists []. split; [done|constructor]. }
  apply post_bind. eapply post_mono; [apply execute_task_dispatched|].
  intros o s1 (Hc1 & Hesc1 & evs1 & Ht1 & Hev1 & _).
  destruct o as [[]|e].
  - eapply post_mono; [apply IH|].
    intros o s2 (Hc2 & Hesc2 & evs2 & Ht2 & Hev2).
    split; [solve_control|]. split; [done|].
    exists (evs2 ++ evs1)%list. split.
    + rewrite Ht2, Ht1. by rewrite app_assoc.
    + by apply Forall_app.
  - split; [done|]. split; [done|]. by exists evs1.
Qed.

(** One pass of the loop, whatever the server answers and whatever the
    checks do: it returns, it leaves [running] as it was, it leaves the poll
    interval as it was or resets it to the configured one, and it ends with
    its only sleep, of the current poll interval or, after an unexpected
    exception, of 60 seconds. The [except] clauses for AuthenticationError,
    RateLimitError, ServerError and ApiConnectionError are never entered. *)
Theorem iteration_iterated env s : post iteration env s (iterated env s).
Proof.
  unfold iteration. apply post_try, post_bind, post_time, post_bind, post_gets.
  assert (same_control s (tick_clock s) ∧ trace (tick_clock s) = trace s)
    as (Hc0 & Ht0) by done.
  generalize dependent (tick_clock s). intros s0 Hc0 Ht0.
  set (current_time := clock env (clock_reads s)).
  apply post_bind.
  (* the heartbeat, when it is due *)
  assert (post (if heartbeat_interval <=? current_time - last_heartbeat s0
                then _send_heartbeat;; modify (set_last_heartbeat current_time)
                else mret tt) env s0
            (λ o s1,
               running s1 = running s
               ∧ (_current_poll_interval s1 = _current_poll_interval s
                  ∨ _current_poll_interval s1 = poll_interval (api (config env)))
               ∧ escapes_api_handlers o
               ∧ ∃ evs, trace s1 = (evs ++ trace s)%list ∧ count is_sleep evs = O))
    as Hhb.
  { destruct (_ <=? _).
    - apply post_bind. eapply post_mono; [apply send_heartbeat_spec|].
      intros o s1 (Hrun & Hlast & Hpoll & Ht & Hesc).
      assert (running s1 = running s) by solve_control.
      assert (_current_poll_interval s1 = _current_poll_interval s
              ∨ _current_poll_interval s1 = poll_interval (api (config env)))
        by (destruct Hpoll; [left; solve_control|by right]).
      assert (trace s1 = ([EvHeartbeat] ++ trace s)%list)
        by (cbn [app]; congruence).
      destruct o as [[]|e]; [apply post_modify|]; cbn; eauto 10.
    - apply post_ret. destruct Hc0 as (? & ? & ?).
      repeat (split; [by eauto|]). by exists []. }
  eapply post_mono; [apply Hhb|]. clear Hhb.
  intros o1 s1 (Hrun1 & Hpoll1 & Hesc1 & evs1 & Ht1 & Hq1).
  destruct o1 as [[]|e].
  2: { rewrite not_ApiError_loop_handler by done. apply post_emit.
       split; [done|]. split; [done|]. split; [done|].
       exists evs1, 60. cbn. rewrite Ht1. eauto. }
  apply post_bind. eapply post_mono; [apply poll_tasks_spec|].
  intros o2 s2 (Hc2 & Ht2 & Hesc2).
  assert (running s2 = running s) as Hrun2 by solve_control.
  assert (_current_poll_interval s2 = _current_poll_interval s
          ∨ _current_poll_interval s2 = poll_interval (api (config env)))
    as Hpoll2 by (destruct Hc2 as (_ & -> & _); done).
  assert (trace s2 = ((EvGetTasks :: evs1) ++ trace s)%list) as Ht2'
    by (cbn [app]; congruence).
  assert (count is_sleep (EvGetTasks :: evs1) = O) as Hq2 by done.
  clear Hc2 Ht2 Ht1 Hq1 Hrun1 Hpoll1. revert Ht2' Hq2.
  generalize (EvGetTasks :: evs1). intros evs2 Ht2 Hq2.
  destruct o2 as [tasks|e].
  2: { rewrite not_ApiError_loop_handler by done. apply post_emit.
       split; [done|]. split; [done|]. split; [done|].
       exists evs2, 60. cbn. rewrite Ht2. eauto. }
  apply post_bind. eapply post_mono; [apply execute_tasks_spec|].
  intros o3 s3 (Hc3 & Hesc3 & evs3 & Ht3 & Hev3).
  assert (running s3 = running s) as Hrun3 by solve_control.
  assert (_current_poll_interval s3 = _current_poll_interval s
          ∨ _current_poll_interval s3 = poll_interval (api (config env)))
    as Hpoll3 by (destruct Hc3 as (_ & -> & _); done).
  assert (trace s3 = ((evs3 ++ evs2) ++ trace s)%list) as Ht3'
    by (rewrite Ht3, Ht2; apply app_assoc).
  assert (count is_sleep (evs3 ++ evs2) = O) as Hq3.
  { rewrite count_app, Hq2, (task_events_count is_sleep evs3); [done| |done].
    by intros [] [?|?]. }
  destruct o3 as [[]|e].
  2: { rewrite not_ApiError_loop_handler by done. apply post_emit.
       split; [done|]. split; [done|]. split; [done|].
       exists (evs3 ++ evs2)%list, 60. cbn. rewrite Ht3'. eauto. }
  apply post_bind, post_gets. unfold time_sleep at 1.
  destruct (_current_poll_interval s3 <? 0).
  - apply post_raise, post_emit.
    split; [done|]. split; [done|]. split; [done|].
    exists (evs3 ++ evs2)%list, 60. cbn. rewrite Ht3'. eauto.
  - apply post_emit.
    split; [done|]. split; [done|]. split; [done|].
    exists (evs3 ++ evs2)%list, (_current_poll_interval s3). cbn. rewrite Ht3'. eauto.
Qed.

Lemma sleeps_within_quiet (allowed : list Z) (evs : list Event) :
  count is_sleep evs = O -> sleeps_within allowed evs.
Proof.
  unfold sleeps_within. induction evs as [|ev evs IH]; [constructor|].
  cbn [count]. destruct ev; cbn [is_sleep]; try discriminate;
    intros H; constructor; auto.
Qed.

Lemma sleeps_within_mono (allowed allowed' : list Z) (evs : list Event) :
  (∀ n, n ∈ allowed -> n ∈ allowed') ->
  sleeps_within allowed evs -> sleeps_within allowed' evs.
Proof.
  intros Hsub. unfold sleeps_within. intros H. eapply Forall_impl; [exact H|].
  intros []; auto.
Qed.

Lemma allowed_sleep_step (n a b c : Z) :
  n ∈ [60; a; c] -> a = b ∨ a = c -> n ∈ [60; b; c].
Proof.
  rewrite !elem_of_cons, elem_of_nil.
  intros [->|[->|[->|[]]]] [->| ->]; auto.
Qed.

(** The loop from a running agent: after [fuel] passes it is still running,
    having slept exactly [fuel] times, each time 60 seconds, the poll
    interval it started with, or the configured one. *)
Theorem main_loop_keeps_running (fuel : nat) env : ∀ s,
  running s = true ->
  post (main_loop fuel) env s (λ o s',
    o = Returns tt
    ∧ running s' = true
    ∧ (_current_poll_interval s' = _current_poll_interval s
       ∨ _current_poll_interval s' = poll_interval (api (config env)))
    ∧ ∃ evs,
        trace s' = (evs ++ trace s)%list
        ∧ count is_sleep evs = fuel
        ∧ sleeps_within [60; _current_poll_interval s;
                         poll_interval (api (config env))] evs).
Proof.
  induction fuel as [|fuel IH]; intros s Hrun.
  { apply post_ret. repeat (split; [by eauto|]). exists []. by repeat constructor. }
  cbn [main_loop]. apply post_bind, post_gets. rewrite Hrun.
  apply post_bind. eapply post_mono; [apply iteration_iterated|].
  intros o s1 (-> & Hrun1 & Hpoll1 & evs1 & seconds & Ht1 & Hq1 & Hsec).
  eapply post_mono; [apply IH; congruence|].
  intros o s2 (-> & Hrun2 & Hpoll2 & evs2 & Ht2 & Hq2 & Hsl2).
  split; [done|]. split; [done|]. split.
  { destruct Hpoll2 as [->| ->]; [done|by right]. }
  exists (evs2 ++ EvSleep seconds :: evs1)%list. split; [|split].
  - rewrite Ht2, Ht1. by rewrite <- app_assoc.
  - rewrite count_app, Hq2. cbn [count is_sleep]. rewrite Hq1. lia.
  - apply Forall_app. split.
    + eapply sleeps_within_mono; [|exact Hsl2].
      intros n Hn. by eapply allowed_sleep_step.
    + constructor; [|by apply sleeps_within_quiet].
      destruct Hsec as [->| ->]; [apply list_elem_of_here|].
      eapply allowed_sleep_step; [|exact Hpoll1].
      apply list_elem_of_further, list_elem_of_here.
Qed.

(** X2. The agent as started: for every environment and every number of
    passes it never stops, never leaves the configured poll interval, and
    only ever sleeps that interval or 60 seconds. *)
Theorem start_never_stops_nor_backs_off (fuel : nat) env :
  post (start fuel) env __init__ (λ o s',
    o = Returns tt
    ∧ running s' = true
    ∧ _current_poll_interval s' = poll_interval (api (config env))
    ∧ count is_sleep (trace s') = fuel
    ∧ sleeps_within [60; poll_interval (api (config env))] (trace s')).
Proof.
  unfold start. apply post_bind, post_ask, post_bind, post_modify,
    post_bind, post_modify, post_bind, post_modify, post_bind, post_modify.
  eapply post_mono; [by apply main_loop_keeps_running|].
  intros o s' (-> & Hrun & Hpoll & evs & Ht & Hq & Hsl). cbn in *.
  split; [done|]. split; [done|]. split; [by destruct Hpoll|].
  rewrite Ht, app_nil_r. split; [done|].
  eapply sleeps_within_mono; [|exact Hsl].
  intros n. rewrite !elem_of_cons, elem_of_nil. intros [->|[->|[->|[]]]]; auto.
Qed.

(** ** Consequences for single tasks *)

Lemma submissions_length (s : Agent) :
  length (submissions s) = count is_submit (trace s).
Proof.
  unfold submissions. induction (trace s) as [|ev tr IH]; [done|].
  cbn [rev count]. rewrite omap_app, length_app, IH.
  destruct ev; cbn; lia.
Qed.

(** Every task that enters [_execute_task] is reported at least once and
    at most twice, whatever its check and the server do. *)
Corollary execute_task_reports_once_or_twice task env s :
  (length (submissions s) + 1
   ≤ length (submissions (snd (_execute_task task env s)))
   ≤ length (submissions s) + 2)%nat.
Proof.
  destruct (execute_task_dispatched task env s)
    as (_ & _ & evs & Ht & _ & Hn & _).
  rewrite !submissions_length, Ht, count_app. lia.
Qed.

(** X1. A task that names a denied path never reaches the registry or a
    check, and what is submitted for it are Error results only: exactly one
    when the server's answer keeps [_request] within the ApiError
    hierarchy. *)
Corollary execute_task_denied_path task env s :
  names_denied_path env task ->
  count is_check_event (trace (snd (_execute_task task env s)))
  = count is_check_event (trace s)
  ∧ (count is_submit (trace (snd (_execute_task task env s)))
     - count is_submit (trace s)
     = count is_error_submit (trace (snd (_execute_task task env s)))
       - count is_error_submit (trace s))%nat
  ∧ (answer_within_api (transport env (requests s)) ->
     length (submissions (snd (_execute_task task env s)))
     = S (length (submissions s))
     ∧ fst (_execute_task task env s) = Returns tt).
Proof.
  intros Hden.
  destruct (execute_task_dispatched task env s)
    as (_ & _ & evs & Ht & _ & _ & Hd).
  destruct (Hd Hden) as (Hchk & Herr & Hone).
  rewrite !submissions_length, Ht, !count_app, Hchk, Herr.
  split; [done|]. split; [lia|].
  intros Hin. destruct (Hone Hin) as [Hn Ho]. split; [lia|done].
Qed.

(** ** Per-task dispatch and the polling loop on concrete runs *)

Example shadow_task_names_denied_path (first then_ : TransportOutcome) :
  names_denied_path (Scenario.server first then_) Scenario.shadow_task.
Proof.
  exists (VList [VStr "/etc/shadow"]), [VStr "/etc/shadow"].
  split; [reflexivity|]. split; [reflexivity|].
  apply Exists_cons_hd. by exists "/etc/shadow".
Qed.

Example server_error_within_api :
  answer_within_api (Scenario.answers 500 NoRetryAfter).
Proof. intros env s e [= <-]. reflexivity. Qed.

(** A denied path against a server that fails the submission with a 500:
    one Error result, no second attempt, and the call returns. *)
Example denied_path_reported_once_on_server_error :
  length (submissions (snd (_execute_task Scenario.shadow_task Scenario.fails_once
                                          Scenario.started))) = 1%nat
  ∧ fst (_execute_task Scenario.shadow_task Scenario.fails_once Scenario.started)
    = Returns tt.
Proof.
  apply (execute_task_denied_path Scenario.shadow_task Scenario.fails_once
                                  Scenario.started).
  - apply shadow_task_names_denied_path.
  - change (answer_within_api (Scenario.answers 500 NoRetryAfter)).
    apply server_error_within_api.
Defined.

(** C1 fails on the code. A registered check returns Passed/100; the server
    answers the submission of that result with a 500. [submit_result] raises
    ServerError inside the [try] of [_execute_task], the [except Exception]
    clause takes it for a failure of the task and calls
    [_submit_error_result]: the task is submitted twice, first as PASSED and
    then as ERROR. *)
Theorem execute_task_resubmits_after_failed_submission :
  history (snd (_execute_task Scenario.cpu_task Scenario.fails_once
                              Scenario.started))
  = [EvCreate (VStr "CPU_USAGE") (VDict []);
     EvExecute;
     EvSubmitResult
       (TaskResult.mk (VStr "t1") "PASSED" 100 (Some (Lit "ok")) (Some (VDict []))
                      (Some 1000));
     EvSubmitResult
       (TaskResult.mk (VStr "t1") "ERROR" 0
                      (Some (Cat (Lit "[") (Cat (StrOf (VInt 500))
                                                (Cat (Lit "] ") (StrOf (VStr "m"))))))
                      None (Some 2000))]
  ∧ length (submissions (snd (_execute_task Scenario.cpu_task Scenario.fails_once
                                            Scenario.started))) = 2%nat.
Proof. split; vm_compute; reflexivity. Qed.

(** C6 fails on the code in one corner. The task names the denied path
    /etc/shadow; the server answers the submission of the Error result with
    a 429 whose Retry-After header is an HTTP date. [int()] raises ValueError
    in [_handle_response]; it is no ApiError, so it leaves
    [_submit_error_result] and reaches the [except Exception] clause of
    [_execute_task], which submits a second Error result. No check is
    created or executed. *)
Theorem denied_path_resubmits_after_value_error :
  history (snd (_execute_task Scenario.shadow_task Scenario.rate_limits_with_date
                              Scenario.started))
  = [EvSubmitResult
       (TaskResult.mk (VStr "t2") "ERROR" 0
                      (Some (Cat (Lit "Path not allowed by agent permissions: ")
                                 (StrOf (VStr "/etc/shadow"))))
                      None (Some 1000));
     EvSubmitResult
       (TaskResult.mk (VStr "t2") "ERROR" 0
                      (Some (Lit ("invalid literal for int() with base 10: '"
                                  ++ Scenario.http_date ++ "'")))
                      None (Some 2000))]
  ∧ length (submissions (snd (_execute_task Scenario.shadow_task
                                            Scenario.rate_limits_with_date
                                            Scenario.started))) = 2%nat.
Proof. split; vm_compute; reflexivity. Qed.

(** C2 fails on the code. The server answers every request with a 401.
    [heartbeat] raises AuthenticationError; [_send_heartbeat] catches it as
    an ApiError (and [_poll_tasks] does the same for [get_tasks]), so it
    never reaches the [except AuthenticationError] clause of the loop: after
    three passes the agent is still running and has polled for tasks in each
    of them. *)
Theorem heartbeat_401_does_not_stop_the_loop :
  (∃ message,
      fst (heartbeat Scenario.rejects_key Scenario.started)
      = Raises (ApiError AuthenticationError message (Some 401)))
  ∧ running (snd (start 3 Scenario.rejects_key __init__)) = true
  ∧ count is_get_tasks (trace (snd (start 3 Scenario.rejects_key __init__))) = 3%nat
  ∧ history (snd (start 3 Scenario.rejects_key __init__))
    = [EvHeartbeat; EvGetTasks; EvSleep 60;
       EvGetTasks; EvSleep 60;
       EvGetTasks; EvSleep 60].
Proof.
  split; [eexists; vm_compute; reflexivity|].
  repeat split; vm_compute; reflexivity.
Qed.

(** C4 fails on the code. The server answers every request with a 429
    carrying Retry-After: 300. [heartbeat] raises RateLimitError;
    [_send_heartbeat] catches it as an ApiError, so the
    [except RateLimitError] clause of the loop is not reached: the poll
    interval stays at the configured 60 seconds, which is what the loop then
    sleeps, while the first entry of the rate-limit table is 120. *)
Theorem heartbeat_429_keeps_the_poll_interval :
  (∃ message,
      fst (heartbeat Scenario.rate_limits Scenario.started)
      = Raises (ApiError (RateLimitError 300) message (Some 429)))
  ∧ _current_poll_interval (snd (start 1 Scenario.rate_limits __init__)) = 60
  ∧ history (snd (start 1 Scenario.rate_limits __init__))
    = [EvHeartbeat; EvGetTasks; EvSleep 60]
  ∧ head (backoff_list "rate_limit") = Some 120.
Proof.
  split; [eexists; vm_compute; reflexivity|].
  repeat split; vm_compute; reflexivity.
Qed.

(** ** Per-task dispatch, case by case *)

Lemma post_eq {A} (m : M A) env s (o : Outcome A) (s' : Agent)
    (Q : Outcome A -> Agent -> Prop) :
  m env s = (o, s') -> Q o s' -> post m env s Q.
Proof. unfold post. by intros ->. Qed.

Lemma check_paths_all_allowed task start_time (paths : list value) env s :
  Forall (allowed env) paths ->
  check_paths task start_time paths env s = (Returns false, s).
Proof.
  induction 1 as [|path rest (p & -> & Hp) _ IH]; [done|].
  cbn [check_paths]. unfold config_is_path_allowed, ask, mret, M_ret, mbind, M_bind.
  cbn beta iota. rewrite Hp. exact IH.
Qed.

(** What the orchestrator does up to the call of [CheckRegistry.create],
    when every path is allowed. *)
Lemma post_reaches_registry task env s (Q : Outcome unit -> Agent -> Prop) :
  paths_all_allowed env task ->
  post (registry_create (Task.check_type task) (Task.config task)) env (tick_clock s)
    (λ o s1,
       match o with
       | Returns check =>
           post (match check with
                 | None =>
                     now ← time_time;
                     _submit_error_result task
                       (Cat (Lit "Unknown check type: ") (StrOf (Task.check_type task)))
                       (duration_ms now (clock env (clock_reads s)))
                 | Some check =>
                     result ← run_execute check;
                     now ← time_time;
                     submit_result
                       (check_result task result
                          (duration_ms now (clock env (clock_reads s))));;
                     mret tt
                 end) env s1
             (λ o' s', match o' with
                       | Returns a => Q (Returns a) s'
                       | Raises e =>
                           post (now ← time_time;
                                 _submit_error_result task (exn_str e)
                                   (duration_ms now (clock env (clock_reads s))))
                             env s' Q
                       end)
       | Raises e =>
           post (now ← time_time;
                 _submit_error_result task (exn_str e)
                   (duration_ms now (clock env (clock_reads s)))) env s1 Q
       end) ->
  post (_execute_task task) env s Q.
Proof.
  intros (task_paths & paths & Hget & Hiter & Hall) H.
  unfold _execute_task. apply post_bind, post_time, post_try.
  apply post_bind, post_lift. rewrite Hget.
  apply post_bind, post_lift. rewrite Hiter.
  apply post_bind.
  eapply post_eq; [by apply check_paths_all_allowed|].
  cbn beta iota. apply post_bind.
  eapply post_mono; [exact H|]. intros [check|e] s1; [|done].
  intros H1. eapply post_mono; [exact H1|]. by intros [a|e] s'.
Qed.

Lemma history_cons (s s' : Agent) (evs : list Event) :
  trace s' = (evs ++ trace s)%list -> history s' = (history s ++ rev evs)%list.
Proof. unfold history. intros ->. apply rev_app_distr. Qed.

(** X3. When every path of the task is allowed, its check type is
    registered and the class builds a check whose [execute] raises [e], the
    task is reported exactly once, whatever the server answers: the registry
    is called, the check is executed, and one Error result with score 0 and
    [str(e)] as message is submitted. *)
Theorem failing_check_reported_once
    task env s (ct : string) (check_class : CheckClass) (check : BaseCheck) (e : exn) :
  paths_all_allowed env task ->
  Task.check_type task = VStr ct ->
  _checks env !! ct = Some check_class ->
  construct check_class (Task.config task) = Returns check ->
  execute check (S (S (length (trace s)))) = Raises e ->
  history (snd (_execute_task task env s))
  = (history s
     ++ [EvCreate (VStr ct) (Task.config task); EvExecute;
         EvSubmitResult (error_result task (exn_str e) (second_reading env s))])%list.
Proof.
  intros Hpaths Hct Hreg Hctor Hexec.
  change (post (_execute_task task) env s
            (λ _ s', history s'
                     = (history s
                        ++ [EvCreate (VStr ct) (Task.config task); EvExecute;
                            EvSubmitResult
                              (error_result task (exn_str e) (second_reading env s))])%list)).
  apply post_reaches_registry; [done|].
  unfold registry_create. apply post_bind, post_ask, post_bind, post_emit.
  rewrite Hct. apply post_lift.
  unfold CheckRegistry.create, CheckRegistry.get. rewrite Hreg, Hctor.
  apply post_bind. unfold run_execute.
  apply post_bind, post_emit, post_bind, post_gets, post_lift.
  cbn [trace record tick_clock length]. rewrite Hexec.
  apply post_bind, post_time.
  eapply post_mono; [apply submit_error_result_spec|].
  intros o s' (_ & Ht & _).
  apply (history_cons s s' [_; _; _]). exact Ht.
Qed.

Lemma failing_check_reported_once_witness :
  history (snd (_execute_task Scenario.cpu_task
                  (Cases.world Cases.broken_check (Scenario.answers 500 NoRetryAfter))
                  Scenario.started))
  = [EvCreate (VStr "CPU_USAGE") (VDict []); EvExecute;
     EvSubmitResult (TaskResult.mk (VStr "t1") "ERROR" 0 (Some (Lit "no /proc"))
                                   None (Some 1000))].
Proof.
  apply (failing_check_reported_once
           Scenario.cpu_task
           (Cases.world Cases.broken_check (Scenario.answers 500 NoRetryAfter))
           Scenario.started "CPU_USAGE" Cases.broken_check Cases.broken Cases.no_proc).
  - exists (VList []), []. split; [reflexivity|]. split; [reflexivity|]. constructor.
  - reflexivity.
  - reflexivity.
  - reflexivity.
  - reflexivity.
Defined.

(** X4. When every path of the task is allowed, its check type is
    registered, the check returns [result] and the server accepts the
    submission (2xx), the call returns after exactly one submission: the
    task's id, the wire status for the check's status, and the check's
    score, message and details; the client's backoff state is reset. *)
Theorem passing_check_reported_once
    task env s (ct : string) (check_class : CheckClass) (check : BaseCheck)
    (result : CheckResult.t) (response : Response.t) :
  paths_all_allowed env task ->
  Task.check_type task = VStr ct ->
  _checks env !! ct = Some check_class ->
  construct check_class (Task.config task) = Returns check ->
  execute check (S (S (length (trace s)))) = Returns result ->
  transport env (requests s) = Responds response ->
  200 ≤ Response.status_code response < 300 ->
  fst (_execute_task task env s) = Returns tt
  ∧ history (snd (_execute_task task env s))
    = (history s
       ++ [EvCreate (VStr ct) (Task.config task); EvExecute;
           EvSubmitResult (check_result task result (second_reading env s))])%list
  ∧ api_client (snd (_execute_task task env s)) = ApiClient.mk 0 None.
Proof.
  intros Hpaths Hct Hreg Hctor Hexec Htr Hok.
  change (post (_execute_task task) env s
            (λ o s', o = Returns tt
                     ∧ history s'
                       = (history s
                          ++ [EvCreate (VStr ct) (Task.config task); EvExecute;
                              EvSubmitResult
                                (check_result task result (second_reading env s))])%list
                     ∧ api_client s' = ApiClient.mk 0 None)).
  apply post_reaches_registry; [done|].
  unfold registry_create. apply post_bind, post_ask, post_bind, post_emit.
  rewrite Hct. apply post_lift.
  unfold CheckRegistry.create, CheckRegistry.get. rewrite Hreg, Hctor.
  apply post_bind. unfold run_execute.
  apply post_bind, post_emit, post_bind, post_gets, post_lift.
  cbn [trace record tick_clock length]. rewrite Hexec.
  apply post_bind, post_time, post_bind.
  unfold submit_result, _request.
  apply post_bind, post_emit, post_bind, post_ask, post_bind, post_gets,
    post_bind, post_modify.
  cbn [requests record tick_clock]. rewrite Htr.
  eapply post_eq; [by apply handle_response_success|].
  apply post_ret. split; [done|]. split; [|done].
  apply (history_cons s _ [_; _; _]). reflexivity.
Qed.

Lemma passing_check_reported_once_witness :
  fst (_execute_task Scenario.cpu_task
         (Cases.world Cases.passing_check (Responds Cases.ok)) Scenario.started)
  = Returns tt
  ∧ history (snd (_execute_task Scenario.cpu_task
                    (Cases.world Cases.passing_check (Responds Cases.ok))
                    Scenario.started))
    = [EvCreate (VStr "CPU_USAGE") (VDict []); EvExecute;
       EvSubmitResult (TaskResult.mk (VStr "t1") "PASSED" 100 (Some (Lit "ok"))
                                     (Some (VDict [])) (Some 1000))]
  ∧ api_client (snd (_execute_task Scenario.cpu_task
                       (Cases.world Cases.passing_check (Responds Cases.ok))
                       Scenario.started)) = ApiClient.mk 0 None.
Proof.
  apply (passing_check_reported_once
           Scenario.cpu_task (Cases.world Cases.passing_check (Responds Cases.ok))
           Scenario.started "CPU_USAGE" Cases.passing_check Cases.passing
           Cases.passed Cases.ok).
  - exists (VList []), []. split; [reflexivity|]. split; [reflexivity|]. constructor.
  - reflexivity.
  - reflexivity.
  - reflexivity.
  - reflexivity.
  - reflexivity.
  - simpl. lia.
Defined.






(** X6. When the task's [config] is not a dict (a null config, for one) or
    its [paths] entry cannot be iterated, reading the paths raises [e]; the
    task is then reported exactly once, whatever the server answers, as an
    Error result with [str(e)] as message, and the registry is never
    called. *)
Theorem unreadable_paths_reported_once task env s (e : exn) :
  paths_unreadable task e ->
  history (snd (_execute_task task env s))
  = (history s
     ++ [EvSubmitResult (error_result task (exn_str e) (second_reading env s))])%list.
Proof.
  intros Hbad.
  change (post (_execute_task task) env s
            (λ _ s', history s'
                     = (history s
                        ++ [EvSubmitResult
                              (error_result task (exn_str e) (second_reading env s))])%list)).
  unfold _execute_task. apply post_bind, post_time, post_try.
  assert (post (now ← time_time;
                _submit_error_result task (exn_str e)
                  (duration_ms now (clock env (clock_reads s)))) env (tick_clock s)
            (λ _ s', history s'
                     = (history s
                        ++ [EvSubmitResult
                              (error_result task (exn_str e) (second_reading env s))])%list))
    as Hreport.
  { apply post_bind, post_time.
    eapply post_mono; [apply submit_error_result_spec|].
    intros o s' (_ & Ht & _). apply (history_cons s s' [_]). exact Ht. }
  apply post_bind, post_lift.
  destruct Hbad as [Hget|(task_paths & Hget & Hiter)]; rewrite Hget; [exact Hreport|].
  apply post_bind, post_lift. rewrite Hiter. exact Hreport.
Qed.

Lemma unreadable_paths_reported_once_witness :
  history (snd (_execute_task
                  (Task.mk (VStr "t7") (VStr "c1") (VStr "CPU_USAGE") (VStr "s1")
                           VNone (VInt 0))
                  (Cases.world Cases.passing_check (Scenario.answers 500 NoRetryAfter))
                  Scenario.started))
  = [EvSubmitResult
       (TaskResult.mk (VStr "t7") "ERROR" 0
          (Some (Lit "'NoneType' object has no attribute 'get'")) None (Some 1000))].
Proof.
  apply (unreadable_paths_reported_once
           (Task.mk (VStr "t7") (VStr "c1") (VStr "CPU_USAGE") (VStr "s1") VNone (VInt 0))
           (Cases.world Cases.passing_check (Scenario.answers 500 NoRetryAfter))
           Scenario.started
           (PyError "AttributeError" (Lit "'NoneType' object has no attribute 'get'"))).
  left. reflexivity.
Defined.

Lemma check_paths_reports task start_time (paths : list value) env : ∀ s,
  post (check_paths task start_time paths) env s (λ o s',
    (o = Returns false ∧ trace s' = trace s)
    ∨ (∃ e, o = Raises e ∧ trace s' = trace s)
    ∨ (∃ message duration,
         trace s' = EvSubmitResult (error_result task message duration) :: trace s
         ∧ (o = Returns true ∨ ∃ e, o = Raises e))).
Proof.
  induction paths as [|path rest IH]; intros s.
  { apply post_ret. by left. }
  cbn [check_paths]. apply post_bind. unfold config_is_path_allowed.
  apply post_bind, post_ask.
  destruct path as [| | |p| |];
    try (apply post_raise; right; left; by eexists).
  apply post_ret.
  destruct (is_path_allowed (abspath env) (config env) p); cbn [negb].
  - apply IH.
  - apply post_bind, post_time, post_bind.
    eapply post_mono; [apply submit_error_result_spec|].
    intros o s' H. cbn beta in H. destruct H as (_ & Ht & _).
    destruct o as [[]|e]; [apply post_ret|]; right; right; eauto 10.
Qed.

Lemma py_get_Returns_dict (obj : value) (key : string) (default v : value) :
  py_get obj key default = Returns v -> ∃ entries, obj = VDict entries.
Proof. destruct obj; try discriminate. eauto. Qed.

Lemma error_result_wire task message duration :
  TaskResult.task_id (error_result task message duration) = Task.id task
  ∧ TaskResult.status (error_result task message duration) ∈ wire_statuses.
Proof. split; [done|]. cbn. unfold wire_statuses. set_solver. Qed.

Lemma check_result_wire task result duration :
  TaskResult.task_id (check_result task result duration) = Task.id task
  ∧ TaskResult.status (check_result task result duration) ∈ wire_statuses.
Proof.
  split; [done|]. cbn. unfold wire_statuses.
  destruct (CheckResult.status result); vm_compute;
    repeat first [apply list_elem_of_here | apply list_elem_of_further].
Qed.

Lemma dispatch_shape_intro task (s s' : Agent)
    (checks : list Event) (results : list TaskResult.t) :
  trace s' = (rev (EvSubmitResult <$> results) ++ rev checks ++ trace s)%list ->
  (checks = []
   ∨ ((checks = [EvCreate (Task.check_type task) (Task.config task)]
       ∨ checks = [EvCreate (Task.check_type task) (Task.config task); EvExecute])
      ∧ ∃ entries, Task.config task = VDict entries)) ->
  (1 ≤ length results ≤ 2)%nat ->
  Forall (λ r, TaskResult.task_id r = Task.id task
               ∧ TaskResult.status r ∈ wire_statuses) results ->
  ∃ evs, history s' = (history s ++ evs)%list ∧ dispatch_shape task evs.
Proof.
  intros Ht Hchecks Hlen Hres.
  exists (checks ++ (EvSubmitResult <$> results))%list. split.
  - unfold history. rewrite Ht, !rev_app_distr, !rev_involutive.
    by rewrite app_assoc.
  - by exists checks, results.
Qed.

(* Every result of an explicit list is one of the two built by
   [_execute_task]. *)
Ltac wire_results :=
  repeat (apply List.Forall_cons;
          [first [apply error_result_wire | apply check_result_wire]|]);
  apply List.Forall_nil.

(* Closes a leaf of the case analysis of [_execute_task] with the check
   events [checks] and the submitted [results], oldest first. *)
Ltac shape_with checks results :=
  apply (dispatch_shape_intro _ _ _ checks results);
  [ unfold check_result, error_result in *;
    cbn [rev app fmap list_fmap tick_clock trace] in *; congruence
  | first [ by left | right; split; [by (left + right)|by eauto] ]
  | cbn [length]; lia
  | wire_results ].

(** X7. Whatever the task, its check and the server do, the effects of one
    call of [_execute_task] are, in this order: at most one call of
    [CheckRegistry.create], made with the task's check type and config and
    only when that config is a dict; then at most one [execute]; then one or
    two submissions, each carrying the task's id and one of the four wire
    statuses. *)
Theorem execute_task_shape task env s :
  ∃ evs,
    history (snd (_execute_task task env s)) = (history s ++ evs)%list
    ∧ dispatch_shape task evs.
Proof.
  change (post (_execute_task task) env s
            (λ _ s', ∃ evs, history s' = (history s ++ evs)%list
                            ∧ dispatch_shape task evs)).
  unfold _execute_task. apply post_bind, post_time.
  set (start_time := clock env (clock_reads s)).
  assert (trace (tick_clock s) = trace s) as Ht0 by done.
  generalize dependent (tick_clock s). intros s0 Ht0.
  (* the [except Exception] clause, entered after [k] earlier effects *)
  assert (∀ e s1 checks results,
            trace s1 = (rev (EvSubmitResult <$> results) ++ rev checks ++ trace s)%list ->
            (checks = []
             ∨ ((checks = [EvCreate (Task.check_type task) (Task.config task)]
                 ∨ checks = [EvCreate (Task.check_type task) (Task.config task);
                             EvExecute])
                ∧ ∃ entries, Task.config task = VDict entries)) ->
            (length results ≤ 1)%nat ->
            Forall (λ r, TaskResult.task_id r = Task.id task
                         ∧ TaskResult.status r ∈ wire_statuses) results ->
            post (now ← time_time;
                  _submit_error_result task (exn_str e) (duration_ms now start_time))
              env s1
              (λ _ s', ∃ evs, history s' = (history s ++ evs)%list
                              ∧ dispatch_shape task evs)) as Hreport.
  { intros e s1 checks results Ht1 Hchecks Hlen Hres.
    apply post_bind, post_time.
    eapply post_mono; [apply submit_error_result_spec|].
    intros o s' H. cbn beta in H. destruct H as (_ & Ht & _).
    apply (dispatch_shape_intro _ _ _ checks
             (results ++ [error_result task (exn_str e)
                            (duration_ms (clock env (clock_reads s1)) start_time)])).
    - rewrite Ht. cbn [tick_clock trace]. rewrite Ht1.
      by rewrite fmap_app, rev_app_distr.
    - done.
    - rewrite length_app. cbn [length]. lia.
    - apply Forall_app. split; [done|]. wire_results. }
  apply post_try, post_bind, post_lift.
  destruct (py_get (Task.config task) "paths" (VList [])) as [task_paths|e] eqn:Hget.
  2: { apply (Hreport e s0 [] []); [done|by left|cbn; lia|constructor]. }
  apply py_get_Returns_dict in Hget as Hdict.
  apply post_bind, post_lift.
  destruct (py_iter task_paths) as [paths|e].
  2: { apply (Hreport e s0 [] []); [done|by left|cbn; lia|constructor]. }
  apply post_bind. eapply post_mono; [apply check_paths_reports|].
  intros o1 s1 H. cbn beta in H.
  destruct H as [[-> Ht1]|[(e & -> & Ht1)
                          |(message & duration & Ht1 & [->|(e & ->)])]].
  - apply post_bind. eapply post_mono; [apply registry_create_spec|].
    intros o2 s2 H. cbn beta in H. destruct H as (_ & Ht2 & _).
    destruct o2 as [[check|]|e].
    + apply post_bind. eapply post_mono; [apply run_execute_spec|].
      intros o3 s3 H. cbn beta in H. destruct H as (_ & Ht3 & _).
      destruct o3 as [result|e].
      * apply post_bind, post_time, post_bind.
        eapply post_mono; [apply submit_result_spec|].
        intros o4 s4 H. cbn beta in H. destruct H as (_ & Ht4 & _).
        destruct o4 as [v|e].
        -- apply post_ret.
           shape_with [EvCreate (Task.check_type task) (Task.config task); EvExecute]
                      [check_result task result
                         (duration_ms (clock env (clock_reads s3)) start_time)].
        -- apply (Hreport e s4
                    [EvCreate (Task.check_type task) (Task.config task); EvExecute]
                    [check_result task result
                       (duration_ms (clock env (clock_reads s3)) start_time)]).
           ++ unfold check_result.
              cbn [rev app fmap list_fmap tick_clock trace] in *. congruence.
           ++ right. split; [by right|done].
           ++ cbn. lia.
           ++ wire_results.
      * apply (Hreport e s3
                 [EvCreate (Task.check_type task) (Task.config task); EvExecute] []).
        -- cbn [rev app fmap list_fmap] in *. congruence.
        -- right. split; [by right|done].
        -- cbn. lia.
        -- constructor.
    + apply post_bind, post_time.
      eapply post_mono; [apply submit_error_result_spec|].
      intros o3 s3 H. cbn beta in H. destruct H as (_ & Ht3 & _).
      destruct o3 as [[]|e].
      * shape_with [EvCreate (Task.check_type task) (Task.config task)]
                   [error_result task
                      (Cat (Lit "Unknown check type: ") (StrOf (Task.check_type task)))
                      (duration_ms (clock env (clock_reads s2)) start_time)].
      * apply (Hreport e s3
                 [EvCreate (Task.check_type task) (Task.config task)]
                 [error_result task
                    (Cat (Lit "Unknown check type: ") (StrOf (Task.check_type task)))
                    (duration_ms (clock env (clock_reads s2)) start_time)]).
        -- unfold error_result.
           cbn [rev app fmap list_fmap tick_clock trace] in *. congruence.
        -- right. split; [by left|done].
        -- cbn. lia.
        -- wire_results.
    + apply (Hreport e s2 [EvCreate (Task.check_type task) (Task.config task)] []).
      * cbn [rev app fmap list_fmap] in *. congruence.
      * right. split; [by left|done].
      * cbn. lia.
      * constructor.
  - apply (Hreport e s1 [] []); [cbn; congruence|by left|cbn; lia|constructor].
  - apply post_ret. shape_with (@nil Event) [error_result task message duration].
  - apply (Hreport e s1 [] [error_result task message duration]).
    + cbn [rev app fmap list_fmap] in *. congruence.
    + by left.
    + cbn. lia.
    + wire_results.
Qed.

(** ** The loop, case by case *)



Lemma stop_eq env s :
  stop env s
  = (Returns tt,
     if has_api_client s then record EvClose (set_running false s)
     else set_running false s).
Proof.
  unfold stop, mbind, M_bind, modify, gets, close, emit. cbn.
  by destruct (has_api_client s).
Qed.

(** X9. [stop] is final, and nothing but [stop] ends the loop. [stop]
    returns, clears [running], and closes the client's session when the
    client has been built; on an agent that has no client yet it closes
    nothing. From the state it leaves, neither the loop nor a batch in
    progress does anything more, whatever fuel or tasks are left. The loop
    itself never changes [running]: after any number of passes, whatever
    the server answers, [running] is what it was before. *)
Theorem stopped_agent_does_nothing (fuel : nat) (tasks : list Task.t) env s :
  fst (stop env s) = Returns tt
  ∧ running (snd (stop env s)) = false
  ∧ history (snd (stop env s))
    = (history s ++ (if has_api_client s then [EvClose] else []))%list
  ∧ main_loop fuel env (snd (stop env s)) = (Returns tt, snd (stop env s))
  ∧ execute_tasks tasks env (snd (stop env s)) = (Returns tt, snd (stop env s))
  ∧ running (snd (main_loop fuel env s)) = running s.
Proof.
  rewrite stop_eq. cbn [fst snd]. split; [done|].
  assert (running (if has_api_client s then record EvClose (set_running false s)
                   else set_running false s) = false) as Hstopped
    by (by destruct (has_api_client s)).
  split; [done|]. split.
  { unfold history. destruct (has_api_client s); cbn; [done|by rewrite app_nil_r]. }
  split.
  { destruct fuel; [done|]. cbn [main_loop]. unfold mbind, M_bind, gets.
    cbn beta iota. by rewrite Hstopped. }
  split.
  { destruct tasks; [done|]. cbn [execute_tasks]. unfold mbind, M_bind, gets.
    cbn beta iota. by rewrite Hstopped. }
  destruct (running s) eqn:Hrun.
  - by destruct (main_loop_keeps_running fuel env s Hrun) as (_ & -> & _).
  - destruct fuel; [done|]. cbn [main_loop]. unfold mbind, M_bind, gets.
    cbn beta iota. by rewrite Hrun.
Qed.

Lemma task_of_Returns (v : value) (task : Task.t) :
  task_of v = Returns task -> well_formed_task v.
Proof.
  unfold task_of, well_formed_task, has_required_keys.
  destruct v as [| | | | |entries]; try discriminate.
  intros H. exists entries. split; [done|]. revert H.
  unfold mbind. cbn [py_get py_getitem Outcome_bind].
  destruct (assoc "checkId" entries), (assoc "checkType" entries),
    (assoc "siteId" entries);
    try (intros _; by eauto);
    repeat (destruct (truthy _); cbn [Outcome_bind]); discriminate.
Qed.

Lemma task_of_escapes (v : value) : escapes_api_handlers (task_of v).
Proof.
  unfold task_of, mbind.
  destruct v as [| | | | |entries]; try done.
  cbn [py_get py_getitem Outcome_bind].
  destruct (assoc "checkId" entries), (assoc "checkType" entries),
    (assoc "siteId" entries);
    repeat (destruct (truthy _); cbn [Outcome_bind]); done.
Qed.

Lemma tasks_of_malformed (items : list value) :
  Exists (λ v, ¬ well_formed_task v) items ->
  ∃ e, tasks_of items = Raises e ∧ is_ApiError e = false.
Proof.
  induction items as [|v rest IH]; intros Hex; [by apply Exists_nil in Hex|].
  cbn [tasks_of]. unfold mbind at 1.
  pose proof (task_of_escapes v) as Hesc.
  destruct (task_of v) as [task|e] eqn:Hv; cbn [Outcome_bind]; [|by eauto].
  apply Exists_cons in Hex as [Hbad|Hrest].
  { destruct Hbad. by eapply task_of_Returns. }
  destruct (IH Hrest) as (e & -> & He). unfold mbind. cbn. eauto.
Qed.

(** X10. A poll is all or nothing. When a successful poll response holds,
    among its task objects, one that is not a dict with checkId, checkType
    and siteId, building the tasks raises an exception that is no ApiError;
    [_poll_tasks] does not catch it, so no task of that response is returned
    for dispatch. *)
Theorem poll_with_malformed_task_raises env s (items : list value) :
  polled env s items ->
  Exists (λ v, ¬ well_formed_task v) items ->
  ∃ e, fst (_poll_tasks env s) = Raises e ∧ is_ApiError e = false.
Proof.
  intros (response & body & data & Htr & Hok & Hjson & Hdata & Htasks) Hbad.
  destruct (tasks_of_malformed items Hbad) as (e & Hraise & He).
  exists e. split; [|done].
  unfold _poll_tasks, try_except, get_tasks, _request, emit, modify, gets, ask, lift.
  unfold mbind, M_bind. cbn beta iota. cbn [requests record]. rewrite Htr.
  rewrite handle_response_success by done. rewrite Hjson.
  cbn [fst]. unfold parse_tasks, mbind. cbn [py_get Outcome_bind].
  rewrite Hdata. cbn [from_option id py_get Outcome_bind]. rewrite Htasks.
  cbn [from_option id py_iter Outcome_bind]. rewrite Hraise. by rewrite He.
Qed.

Lemma poll_with_malformed_task_raises_witness :
  ∃ e,
    fst (_poll_tasks
           (Scenario.server
              (Scenario.one_task [("taskId", VStr "t1"); ("checkType", VStr "CPU_USAGE")])
              Scenario.no_tasks)
           Scenario.started) = Raises e
    ∧ is_ApiError e = false.
Proof.
  apply (poll_with_malformed_task_raises
           (Scenario.server
              (Scenario.one_task [("taskId", VStr "t1"); ("checkType", VStr "CPU_USAGE")])
              Scenario.no_tasks)
           Scenario.started
           [VDict [("taskId", VStr "t1"); ("checkType", VStr "CPU_USAGE")]]).
  - eexists _, _, _. split; [reflexivity|]. split; [simpl; lia|].
    split; [reflexivity|]. split; reflexivity.
  - apply Exists_cons_hd. intros (entries & [= <-] & ([? Hid] & _)). discriminate Hid.
Defined.

Lemma send_heartbeat_outcome env s :
  post _send_heartbeat env s (λ o s',
    last_heartbeat s' = last_heartbeat s
    ∧ trace s' = EvHeartbeat :: trace s
    ∧ escapes_api_handlers o
    ∧ (answer_within_api (transport env (requests s)) -> o = Returns tt)).
Proof.
  unfold _send_heartbeat, heartbeat.
  apply post_try, post_bind, post_bind, post_emit.
  eapply post_mono; [apply request_spec|].
  intros o s' H. cbn beta in H. destruct H as ((_ & _ & Hlast) & Ht & _ & Hw).
  cbn [requests record] in Hw.
  destruct o as [v|e].
  - apply post_bind, post_ask, post_modify. by cbn.
  - destruct (is_ApiError e) eqn:He; [by apply post_ret|].
    repeat (split; [done|]). intros Hin. specialize (Hw Hin). congruence.
Qed.

(** The pass after the heartbeat: poll, dispatch, sleep, under the [except]
    clauses of the loop. It sends no heartbeat and leaves the time of the
    last one alone. *)
Lemma pass_rest_spec env s1 (Q : Outcome unit -> Agent -> Prop) :
  (∀ o s', last_heartbeat s' = last_heartbeat s1 ->
           (∃ evs, trace s' = (evs ++ trace s1)%list ∧ count is_heartbeat evs = O) ->
           Q o s') ->
  post (tasks ← _poll_tasks;
        execute_tasks tasks;;
        interval ← gets _current_poll_interval;
        time_sleep interval) env s1
    (λ o s', match o with
             | Returns a => Q (Returns a) s'
             | Raises e =>
                 match loop_handler e with
                 | Some h => post h env s' Q
                 | None => Q (Raises e) s'
                 end
             end).
Proof.
  intros HQ.
  apply post_bind. eapply post_mono; [apply poll_tasks_spec|].
  intros o2 s2 H. cbn beta in H. destruct H as ((_ & _ & Hl2) & Ht2 & Hesc2).
  destruct o2 as [tasks|e].
  2: { rewrite not_ApiError_loop_handler by done. apply post_emit.
       apply HQ; [done|]. exists [EvSleep 60; EvGetTasks]. cbn. by rewrite Ht2. }
  apply post_bind. eapply post_mono; [apply execute_tasks_spec|].
  intros o3 s3 H. cbn beta in H.
  destruct H as ((_ & _ & Hl3) & Hesc3 & evs3 & Ht3 & Hev3).
  assert (count is_heartbeat evs3 = O) as Hq3.
  { apply task_events_count; [|done]. by intros [] [?|?]. }
  destruct o3 as [[]|e].
  2: { rewrite not_ApiError_loop_handler by done. apply post_emit.
       apply HQ; [cbn; congruence|].
       exists (EvSleep 60 :: evs3 ++ [EvGetTasks])%list. split.
       - cbn. rewrite Ht3, Ht2. by rewrite <- app_assoc.
       - cbn. rewrite count_app, Hq3. done. }
  apply post_bind, post_gets. unfold time_sleep at 1.
  destruct (_current_poll_interval s3 <? 0).
  - apply post_raise, post_emit. apply HQ; [cbn; congruence|].
    exists (EvSleep 60 :: evs3 ++ [EvGetTasks])%list. split.
    + cbn. rewrite Ht3, Ht2. by rewrite <- app_assoc.
    + cbn. rewrite count_app, Hq3. done.
  - apply post_emit. apply HQ; [cbn; congruence|].
    exists (EvSleep (_current_poll_interval s3) :: evs3 ++ [EvGetTasks])%list. split.
    + cbn. rewrite Ht3, Ht2. by rewrite <- app_assoc.
    + cbn. rewrite count_app, Hq3. done.
Qed.

(** X11. The heartbeat cadence of one pass. When fewer than 60 seconds have
    passed since the last heartbeat, the pass sends none and leaves that time
    alone. Otherwise the heartbeat is the first effect of the pass and the
    only heartbeat in it, and when the server's answer keeps [_request]
    within the ApiError hierarchy the time of the last heartbeat becomes the
    pass's clock reading, also when the heartbeat failed: a failed heartbeat
    is not sent again before 60 more seconds. *)
Theorem iteration_heartbeat_cadence env s :
  ∃ evs,
    history (snd (iteration env s)) = (history s ++ evs)%list
    ∧ if heartbeat_interval <=? clock env (clock_reads s) - last_heartbeat s
      then (∃ rest, evs = EvHeartbeat :: rest ∧ count is_heartbeat rest = O)
           ∧ (answer_within_api (transport env (requests s)) ->
              last_heartbeat (snd (iteration env s)) = clock env (clock_reads s))
      else count is_heartbeat evs = O
           ∧ last_heartbeat (snd (iteration env s)) = last_heartbeat s.
Proof.
  set (Q := λ (_ : Outcome unit) (s' : Agent), ∃ evs,
               history s' = (history s ++ evs)%list
               ∧ if heartbeat_interval <=? clock env (clock_reads s) - last_heartbeat s
                 then (∃ rest, evs = EvHeartbeat :: rest ∧ count is_heartbeat rest = O)
                      ∧ (answer_within_api (transport env (requests s)) ->
                         last_heartbeat s' = clock env (clock_reads s))
                 else count is_heartbeat evs = O
                      ∧ last_heartbeat s' = last_heartbeat s).
  change (post iteration env s Q).
  assert (∀ evs, count is_heartbeat (rev evs) = count is_heartbeat evs) as Hrev.
  { induction evs as [|ev evs IH]; [done|].
    cbn [rev count]. rewrite count_app, IH. cbn. destruct (is_heartbeat ev); lia. }
  unfold iteration. apply post_try, post_bind, post_time, post_bind, post_gets.
  cbn [last_heartbeat tick_clock].
  apply post_bind. unfold Q.
  destruct (heartbeat_interval <=? clock env (clock_reads s) - last_heartbeat s);
    fold Q.
  - apply post_bind. eapply post_mono; [apply send_heartbeat_outcome|].
    intros o1 s1 H. cbn beta in H. destruct H as (Hl1 & Ht1 & Hesc1 & Hw1).
    cbn [tick_clock last_heartbeat trace requests] in *.
    destruct o1 as [[]|e].
    + apply post_modify. cbn beta iota.
      apply (pass_rest_spec env _ Q). intros o s' Hl (evs & Ht & Hq).
      cbn [set_last_heartbeat last_heartbeat trace] in *.
      exists (EvHeartbeat :: rev evs)%list. split.
      * rewrite (history_cons s s' (evs ++ [EvHeartbeat])%list).
        -- by rewrite rev_app_distr.
        -- rewrite Ht, Ht1. by rewrite <- app_assoc.
      * split; [exists (rev evs); by rewrite Hrev|]. by intros _.
    + rewrite not_ApiError_loop_handler by done. apply post_emit.
      exists [EvHeartbeat; EvSleep 60]. split.
      * apply (history_cons s _ [EvSleep 60; EvHeartbeat]). cbn. by rewrite Ht1.
      * split; [by exists [EvSleep 60]|]. intros Hin. by specialize (Hw1 Hin).
  - apply post_ret.
    apply (pass_rest_spec env _ Q). intros o s' Hl (evs & Ht & Hq).
    cbn [tick_clock last_heartbeat trace] in *.
    exists (rev evs). split; [by apply history_cons|]. by rewrite Hrev.
Qed.

(** ** Responses, classified *)

(** X12. [_handle_response] returns exactly on a 2xx status, and exactly then
    resets the client's backoff state; on every other response, whatever it
    raises, the backoff state, the agent's control state and the trace are
    left as they were. *)
Theorem handle_response_returns_iff_success (response : Response.t) env s :
  ((∃ data, fst (_handle_response response env s) = Returns data)
   <-> is_success response = true)
  ∧ snd (_handle_response response env s)
    = (if is_success response then set_api_client (ApiClient.mk 0 None) s else s).
Proof.
  unfold _handle_response, is_success, message_of.
  destruct (_ && _); [split; [split; eauto|done]|].
  assert (∀ (default : string) (cls : ApiErrorClass),
            let m := (message ← lift (m ← py_get
                                 match Response.json response with
                                 | Some data => data
                                 | None =>
                                     VDict [("message",
                                             VStr (if String.eqb (Response.text response) ""
                                                   then "Unknown error"
                                                   else Response.text response))]
                                 end "message" (VStr default); Returns (StrOf m));
                      raise (ApiError cls message (Some (Response.status_code response))))
                     : M value in
            ((∃ data, fst (m env s) = Returns data) <-> false = true)
            ∧ snd (m env s) = s) as Hraise.
  { intros default cls. cbn zeta. unfold mbind, M_bind, lift, raise.
    destruct (py_get _ _ _); cbn; (split; [split; [intros [? ?]|]|]; done). }
  destruct (_ || _); [apply Hraise|].
  destruct (_ =? 429).
  { destruct (Response.retry_after response) as [|n|raw].
    - apply (Hraise "Rate limit exceeded" (RateLimitError 120)).
    - apply (Hraise "Rate limit exceeded" (RateLimitError n)).
    - cbn. split; [split; [intros [? ?]|]|]; done. }
  destruct (500 <=? _); apply Hraise.
Qed.

(** X13. An error response makes [_handle_response] raise something other
    than an ApiError in exactly two cases: its JSON body is not an object
    (the body has no [get]), or it is a 429 whose Retry-After header [int()]
    rejects. Every other answer of the transport, a transport failure
    included, returns or raises an ApiError. *)
Theorem answer_within_api_iff (response : Response.t) :
  answer_within_api (Responds response)
  <-> is_success response = true
      ∨ (body_has_get response = true
         ∧ ((Response.status_code response =? 429)
            && negb (retry_after_parses response)) = false).
Proof.
  unfold answer_within_api, _handle_response, message_of, is_success,
    body_has_get, retry_after_parses.
  destruct response as [code json text retry]. cbn [Response.status_code
    Response.json Response.text Response.retry_after].
  split.
  - intros H. specialize (H Scenario.rejects_key __init__).
    destruct ((200 <=? code) && (code <? 300)); [by left|]. right.
    destruct ((code =? 401) || (code =? 403)) eqn:Hauth.
    { assert ((code =? 429) = false) as -> by lia.
      split; [|done]. destruct json as [[]|]; try done;
        by specialize (H _ eq_refl). }
    destruct (code =? 429).
    { destruct retry as [|n|raw]; cbn [negb andb];
        try (split; [|done]; destruct json as [[]|]; try done;
             by specialize (H _ eq_refl)).
      by specialize (H _ eq_refl). }
    split; [|done].
    destruct (500 <=? code); destruct json as [[]|]; try done;
      by specialize (H _ eq_refl).
  - intros [Hok|[Hbody Hretry]] env s e.
    { rewrite Hok. discriminate. }
    destruct ((200 <=? code) && (code <? 300)); [discriminate|].
    destruct ((code =? 401) || (code =? 403)).
    { destruct json as [[]|]; try discriminate Hbody;
        by (intros H; unfold mbind, M_bind, lift, raise in H; cbn in H; simplify_eq). }
    destruct (code =? 429).
    { destruct retry as [|n|raw]; try discriminate Hretry;
        destruct json as [[]|]; try discriminate Hbody;
        by (intros H; unfold mbind, M_bind, lift, raise in H; cbn in H; simplify_eq). }
    destruct (500 <=? code); destruct json as [[]|]; try discriminate Hbody;
      by (intros H; unfold mbind, M_bind, lift, raise in H; cbn in H; simplify_eq).
Qed.

(** X14. The client never retries: each of [heartbeat], [get_tasks] and
    [submit_result] makes exactly one HTTP request, whether it returns or
    raises, and [_submit_error_result] likewise. *)
Theorem api_calls_make_one_request env s (result : TaskResult.t) task message duration :
  requests (snd (heartbeat env s)) = S (requests s)
  ∧ requests (snd (get_tasks env s)) = S (requests s)
  ∧ requests (snd (submit_result result env s)) = S (requests s)
  ∧ requests (snd (_submit_error_result task message duration env s)) = S (requests s).
Proof.
  split; [|split; [|split]].
  - change (post heartbeat env s (λ _ s', requests s' = S (requests s))).
    unfold heartbeat. apply post_bind, post_emit.
    eapply post_mono; [apply request_spec|]. intros o s' H. cbn beta in H. tauto.
  - change (post get_tasks env s (λ _ s', requests s' = S (requests s))).
    unfold get_tasks. apply post_bind, post_emit, post_bind.
    eapply post_mono; [apply request_spec|]. intros o s' H. cbn beta in H.
    destruct H as (_ & _ & Hr & _). by destruct o.
  - pose proof (submit_result_spec result env s) as H. unfold post in H. tauto.
  - pose proof (submit_error_result_spec task message duration env s) as H.
    unfold post in H. tauto.
Qed.

(** ** Two worlds that differ in Retry-After values only *)

Section RetryAfter.

Variables env env' : Env.
Hypothesis Hworld : same_world_but_retry_after env env'.

Lemma same_exn_refl (e : exn) : same_exn e e.
Proof. by destruct e as [[] ? ?|]. Qed.

Lemma same_outcome_refl {A} (o : Outcome A) : same_outcome o o.
Proof. destruct o; [done|apply same_exn_refl]. Qed.

Lemma same_exn_str (e e' : exn) : same_exn e e' -> exn_str e = exn_str e'.
Proof.
  destruct e as [[] ? ?|], e' as [[] ? ?|]; cbn; intros H;
    first [by simplify_eq | by destruct H as [-> ->]].
Qed.

Lemma same_exn_is_ApiError (e e' : exn) :
  same_exn e e' -> is_ApiError e = is_ApiError e'.
Proof.
  destruct e as [[] ? ?|], e' as [[] ? ?|]; cbn; intros H;
    first [done | by simplify_eq].
Qed.

Lemma same_exn_loop_handler (e e' : exn) :
  same_exn e e' -> loop_handler e = loop_handler e'.
Proof.
  destruct e as [[] ? ?|], e' as [[] ? ?|]; cbn; intros H;
    first [done | by simplify_eq].
Qed.

Lemma agree_refl_pure {A} (m : M A) :
  (∀ s, m env s = m env' s) -> agree env env' m m.
Proof. intros H s. rewrite H. split; [apply same_outcome_refl|done]. Qed.

Lemma agree_bind {A B} (m m' : M A) (f f' : A -> M B) :
  agree env env' m m' -> (∀ a, agree env env' (f a) (f' a)) ->
  agree env env' (m ≫= f) (m' ≫= f').
Proof.
  intros Hm Hf s. unfold mbind, M_bind. destruct (Hm s) as [Ho Hs].
  destruct (m env s) as [[a|e] s1], (m' env' s) as [[a'|e'] s1'];
    cbn in Ho, Hs; try done; subst.
  apply Hf.
Qed.

Lemma agree_try {A} (m m' : M A) (h h' : exn -> option (M A)) :
  agree env env' m m' ->
  (∀ e e', same_exn e e' ->
           match h e, h' e' with
           | Some k, Some k' => agree env env' k k'
           | None, None => True
           | _, _ => False
           end) ->
  agree env env' (try_except m h) (try_except m' h').
Proof.
  intros Hm Hh s. unfold try_except. destruct (Hm s) as [Ho Hs].
  destruct (m env s) as [[a|e] s1], (m' env' s) as [[a'|e'] s1'];
    cbn in Ho, Hs; try done; subst; try done.
  specialize (Hh e e' Ho). destruct (h e), (h' e'); first [done | apply Hh].
Qed.

Lemma agree_time_time : agree env env' time_time time_time.
Proof.
  apply agree_refl_pure. intros s. unfold time_time, mbind, M_bind, ask, gets, modify.
  cbn. destruct Hworld as (_ & -> & _). done.
Qed.

Lemma agree_handle_response (r r' : Response.t) :
  same_but_retry_after (Responds r) (Responds r') ->
  agree env env' (_handle_response r) (_handle_response r').
Proof.
  destruct r as [code json text retry], r' as [code' json' text' retry'].
  cbn. intros (-> & -> & -> & Hretry) s.
  unfold _handle_response, message_of.
  cbn [Response.status_code Response.json Response.text Response.retry_after].
  destruct ((200 <=? code') && (code' <? 300)); [done|].
  destruct ((code' =? 401) || (code' =? 403)).
  { unfold mbind, M_bind, lift, raise. destruct (py_get _ _ _); cbn;
      (split; [|done]); [done|apply same_exn_refl]. }
  destruct (code' =? 429).
  { unfold mbind, M_bind, lift, raise, mret, M_ret.
    destruct retry as [|n|raw], retry' as [|n'|raw']; try discriminate Hretry;
      cbn; try (destruct (py_get _ _ _); cbn; (split; [|done]);
                first [done|apply same_exn_refl]).
    injection Hretry as ->. done. }
  destruct (500 <=? code');
    unfold mbind, M_bind, lift, raise; destruct (py_get _ _ _); cbn;
    (split; [|done]); first [done|apply same_exn_refl].
Qed.

Lemma agree_request : agree env env' _request _request.
Proof.
  intros s. unfold _request, mbind at 1 3, M_bind at 1 3, ask. cbn beta iota.
  unfold mbind at 1 3, M_bind at 1 3, gets. cbn beta iota.
  unfold mbind, M_bind, modify. cbn beta iota.
  destruct Hworld as (Htr & _). specialize (Htr (requests s)).
  destruct (transport env (requests s)) as [r|reason],
    (transport env' (requests s)) as [r'|reason']; try done.
  - by apply agree_handle_response.
  - cbn in Htr. subst. done.
Qed.

Lemma agree_submit_error_result task message duration :
  agree env env' (_submit_error_result task message duration)
        (_submit_error_result task message duration).
Proof.
  unfold _submit_error_result, submit_result. apply agree_try.
  - apply agree_bind; [apply agree_bind; [by apply agree_refl_pure|]|].
    + intros _. apply agree_request.
    + intros _. by apply agree_refl_pure.
  - intros e e' He. rewrite (same_exn_is_ApiError e e' He).
    destruct (is_ApiError e'); [by apply agree_refl_pure|done].
Qed.

Lemma agree_check_paths task start_time (paths : list value) :
  agree env env' (check_paths task start_time paths)
        (check_paths task start_time paths).
Proof.
  induction paths as [|path rest IH]; [by apply agree_refl_pure|].
  cbn [check_paths]. apply agree_bind.
  - apply agree_refl_pure. intros s. unfold config_is_path_allowed, mbind, M_bind, ask.
    cbn. destruct Hworld as (_ & _ & -> & _ & ->). by destruct path.
  - intros allowed. destruct allowed; cbn [negb]; [exact IH|].
    apply agree_bind; [apply agree_time_time|]. intros now.
    apply agree_bind; [apply agree_submit_error_result|].
    intros _. by apply agree_refl_pure.
Qed.

Lemma agree_report task (e e' : exn) (start_time : Z) :
  same_exn e e' ->
  agree env env'
    (now ← time_time; _submit_error_result task (exn_str e) (duration_ms now start_time))
    (now ← time_time; _submit_error_result task (exn_str e') (duration_ms now start_time)).
Proof.
  intros He. rewrite (same_exn_str e e' He).
  apply agree_bind; [apply agree_time_time|]. intros now.
  apply agree_submit_error_result.
Qed.

Lemma agree_execute_task task :
  agree env env' (_execute_task task) (_execute_task task).
Proof.
  unfold _execute_task. apply agree_bind; [apply agree_time_time|]. intros start_time.
  apply agree_try; [|intros e e' He; by apply agree_report].
  apply agree_bind; [by apply agree_refl_pure|]. intros task_paths.
  apply agree_bind; [by apply agree_refl_pure|]. intros paths.
  apply agree_bind; [apply agree_check_paths|]. intros returned.
  destruct returned; [by apply agree_refl_pure|].
  apply agree_bind.
  { apply agree_refl_pure. intros s. unfold registry_create, mbind, M_bind, ask.
    cbn. destruct Hworld as (_ & _ & _ & -> & _). by destruct (Task.check_type task). }
  intros [check|].
  - apply agree_bind; [by apply agree_refl_pure|]. intros result.
    apply agree_bind; [apply agree_time_time|]. intros now.
    apply agree_bind; [|intros _; by apply agree_refl_pure].
    unfold submit_result. apply agree_bind; [by apply agree_refl_pure|].
    intros _. apply agree_request.
  - apply agree_bind; [apply agree_time_time|]. intros now.
    apply agree_submit_error_result.
Qed.

Lemma agree_execute_tasks (tasks : list Task.t) :
  agree env env' (execute_tasks tasks) (execute_tasks tasks).
Proof.
  induction tasks as [|task rest IH]; [by apply agree_refl_pure|].
  cbn [execute_tasks]. apply agree_bind; [by apply agree_refl_pure|].
  intros r. destruct r; cbn [negb]; [|by apply agree_refl_pure].
  apply agree_bind; [apply agree_execute_task|]. intros _. exact IH.
Qed.

Lemma agree_iteration : agree env env' iteration iteration.
Proof.
  unfold iteration. apply agree_try.
  2: { intros e e' He. rewrite (same_exn_loop_handler e e' He).
       destruct e' as [[] ? ?|]; cbn; apply agree_refl_pure; intros s;
         first [done|by rewrite !stop_eq]. }
  apply agree_bind; [apply agree_time_time|]. intros current_time.
  apply agree_bind; [by apply agree_refl_pure|]. intros last.
  apply agree_bind.
  { destruct (_ <=? _); [|by apply agree_refl_pure].
    apply agree_bind; [|intros _; by apply agree_refl_pure].
    unfold _send_heartbeat. apply agree_try.
    - apply agree_bind.
      + unfold heartbeat. apply agree_bind; [by apply agree_refl_pure|].
        intros _. apply agree_request.
      + intros _. apply agree_refl_pure. intros s. unfold mbind, M_bind, ask.
        cbn. destruct Hworld as (_ & _ & _ & _ & ->). done.
    - intros e e' He. rewrite (same_exn_is_ApiError e e' He).
      destruct (is_ApiError e'); [by apply agree_refl_pure|done]. }
  intros _. apply agree_bind.
  { unfold _poll_tasks. apply agree_try.
    - unfold get_tasks. apply agree_bind; [by apply agree_refl_pure|].
      intros _. apply agree_bind; [apply agree_request|].
      intros response. by apply agree_refl_pure.
    - intros e e' He. rewrite (same_exn_is_ApiError e e' He).
      destruct (is_ApiError e'); [by apply agree_refl_pure|done]. }
  intros tasks. apply agree_bind; [apply agree_execute_tasks|].
  intros _. apply agree_bind; [by apply agree_refl_pure|].
  intros interval. unfold time_sleep. destruct (_ <? _); by apply agree_refl_pure.
Qed.

Lemma agree_main_loop (fuel : nat) : agree env env' (main_loop fuel) (main_loop fuel).
Proof.
  induction fuel as [|fuel IH]; [by apply agree_refl_pure|].
  cbn [main_loop]. apply agree_bind; [by apply agree_refl_pure|].
  intros r. destruct r; [|by apply agree_refl_pure].
  apply agree_bind; [apply agree_iteration|]. intros _. exact IH.
Qed.

(** X15. The agent ignores the seconds of a Retry-After header. Run in two
    worlds whose servers answer alike except for the number of seconds in
    that header (or for its absence), a task dispatch and the whole loop
    leave the same state behind: the same trace of heartbeats, polls,
    submissions and sleeps, the same poll interval, the same backoff
    state. *)
Theorem retry_after_value_is_ignored (fuel : nat) (task : Task.t) (s : Agent) :
  snd (start fuel env s) = snd (start fuel env' s)
  ∧ snd (_execute_task task env s) = snd (_execute_task task env' s).
Proof.
  split; [|apply agree_execute_task].
  assert (agree env env' (start fuel) (start fuel)) as H; [|apply H].
  intros s0. unfold start, mbind, M_bind, ask, modify. cbn beta iota.
  pose proof Hworld as (_ & _ & _ & _ & <-). apply agree_main_loop.
Qed.

End RetryAfter.

Lemma retry_after_value_is_ignored_witness :
  snd (start 3 Scenario.rate_limits __init__)
  = snd (start 3 Cases2.rate_limits_plain __init__)
  ∧ snd (_execute_task Scenario.cpu_task Scenario.rate_limits Scenario.started)
    = snd (_execute_task Scenario.cpu_task Cases2.rate_limits_plain Scenario.started).
Proof.
  assert (same_world_but_retry_after Scenario.rate_limits Cases2.rate_limits_plain)
    as Hworld.
  { split; [|by repeat split]. intros [|n]; cbn; by repeat split. }
  split.
  - apply (retry_after_value_is_ignored Scenario.rate_limits Cases2.rate_limits_plain
             Hworld 3 Scenario.cpu_task __init__).
  - apply (retry_after_value_is_ignored Scenario.rate_limits Cases2.rate_limits_plain
             Hworld 3 Scenario.cpu_task Scenario.started).
Defined.

(** ** Backoff over several calls *)

(** X16. The escalation schedule. A run of consecutive calls for an error
    type other than the last one recorded returns the first entry of its
    table, then the second, then the third for ever after: 120, 240, 600,
    600, ... for 'rate_limit' and 300, 600, 1200, 1200, ... for any other
    error type. *)
Theorem backoff_escalation_schedule
    (error_type : string) (c : ApiClient.t) (n k : nat) :
  ApiClient._last_error_type c ≠ Some error_type ->
  (k < n)%nat ->
  backoff_run error_type n c !! k
  = Some (if decide (error_type = "rate_limit")
          then match k with O => 120 | S O => 240 | _ => 600 end
          else match k with O => 300 | S O => 600 | _ => 1200 end).
Proof.
  intros Hne Hk. rewrite backoff_run_lookup by done. f_equal.
  unfold start_index. case_decide; [|congruence].
  unfold table_at, backoff_list. case_decide; by destruct k as [|[|[|k]]].
Qed.

Lemma backoff_escalation_schedule_witness :
  backoff_run "server_error" 5 (ApiClient.mk 7 (Some "rate_limit")) !! 3%nat
  = Some 1200.
Proof.
  apply (backoff_escalation_schedule "server_error"
           (ApiClient.mk 7 (Some "rate_limit")) 5 3).
  - discriminate.
  - lia.
Defined.

(** X17. Backoff escalates only on repetition. When no error type of a
    sequence of calls repeats the one before it, every call returns the
    first entry of its table: errors that alternate between rate limiting
    and server errors never escalate. *)
Theorem alternating_errors_never_escalate (error_types : list string) : ∀ c,
  alternating (ApiClient._last_error_type c) error_types ->
  backoff_calls error_types c
  = (λ error_type, if decide (error_type = "rate_limit") then 120 else 300)
      <$> error_types.
Proof.
  induction error_types as [|error_type rest IH]; intros c Halt; [done|].
  destruct Halt as [Hne Hrest].
  cbn [backoff_calls fmap list_fmap]. rewrite get_backoff_interval_eq.
  f_equal.
  - unfold start_index. case_decide; [|congruence].
    unfold table_at, backoff_list. by case_decide.
  - by apply IH.
Qed.

Lemma alternating_errors_never_escalate_witness :
  backoff_calls ["rate_limit"; "server_error"; "rate_limit"; "server_error"]
                (ApiClient.mk 0 None)
  = [120; 300; 120; 300].
Proof.
  apply (alternating_errors_never_escalate
           ["rate_limit"; "server_error"; "rate_limit"; "server_error"]
           (ApiClient.mk 0 None)).
  cbn. by repeat split.
Defined.

(** ** The registry's listing, and the permission policy as a whole *)

Lemma elem_of_list_types (check_type : string) (_checks : gmap string CheckClass) :
  check_type ∈ list_types _checks <-> is_Some (_checks !! check_type).
Proof.
  unfold list_types. rewrite list_elem_of_fmap. split.
  - intros ([k c] & -> & Hin). apply elem_of_map_to_list in Hin. by eexists.
  - intros [c Hc]. exists (check_type, c). split; [done|].
    by apply elem_of_map_to_list.
Qed.

(** X18. [list_types] and [create] agree: the listing has no duplicates, and
    [create] returns [None] exactly for the check types that are not
    listed; for a listed type it returns an instance or raises what the
    constructor raised. *)
Theorem create_none_iff_not_listed
    (check_type : string) (config : value) (_checks : gmap string CheckClass) :
  NoDup (list_types _checks)
  ∧ (CheckRegistry.create check_type config _checks = Returns None
     <-> check_type ∉ list_types _checks).
Proof.
  split; [apply NoDup_fst_map_to_list|].
  rewrite elem_of_list_types. unfold CheckRegistry.create, CheckRegistry.get.
  destruct (_checks !! check_type) as [check_class|] eqn:Hget.
  - split; [|by intros []]. by destruct (construct check_class config).
  - split; [|done]. intros _ [? ?]. done.
Qed.

(** X19. Registration touches one entry. Registering [check_class] under
    [check_type] makes that type listed, lists no other new type, and leaves
    lookup and creation of every other type as they were; the listing grows
    by one for a new type and keeps its length for a type registered before.
    After [clear] nothing is listed. *)
Theorem register_touches_one_entry
    (check_type other : string) (check_class : CheckClass) (config : value)
    (_checks : gmap string CheckClass) :
  (other ∈ list_types (CheckRegistry.register check_type check_class _checks)
   <-> other = check_type ∨ other ∈ list_types _checks)
  ∧ (other ≠ check_type ->
     CheckRegistry.get other (CheckRegistry.register check_type check_class _checks)
     = CheckRegistry.get other _checks
     ∧ CheckRegistry.create other config
         (CheckRegistry.register check_type check_class _checks)
       = CheckRegistry.create other config _checks)
  ∧ length (list_types (CheckRegistry.register check_type check_class _checks))
    = (if decide (check_type ∈ list_types _checks)
       then length (list_types _checks)
       else S (length (list_types _checks)))
  ∧ list_types (CheckRegistry.clear _checks) = [].
Proof.
  unfold CheckRegistry.register, CheckRegistry.get, CheckRegistry.create,
    CheckRegistry.clear.
  split; [|split; [|split]].
  - rewrite !elem_of_list_types.
    destruct (decide (other = check_type)) as [->|Hne].
    + rewrite lookup_insert_eq. split; [by left|by eauto].
    + rewrite lookup_insert_ne by done. split; [by right|]. by intros [?|?].
  - intros Hne. unfold CheckRegistry.get. by rewrite !lookup_insert_ne.
  - unfold list_types. rewrite !length_fmap, !length_map_to_list.
    case_decide as Hin.
    + apply elem_of_list_types in Hin as [c Hc].
      rewrite <- (insert_delete_id _checks check_type c Hc) at 2.
      rewrite <- insert_delete_eq.
      rewrite !map_size_insert_None by apply lookup_delete_eq. done.
    + apply map_size_insert_None.
      destruct (_checks !! check_type) eqn:Hc; [|done].
      destruct Hin. apply elem_of_list_types. by eexists.
  - unfold list_types. by rewrite map_to_list_empty.
Qed.

Lemma register_touches_one_entry_witness :
  CheckRegistry.get "CPU_USAGE"
    (CheckRegistry.register "DISK_USAGE" Cases.broken_check
                            {["CPU_USAGE" := Cases.passing_check]})
  = CheckRegistry.get "CPU_USAGE" {["CPU_USAGE" := Cases.passing_check]}
  ∧ CheckRegistry.create "CPU_USAGE" (VDict [])
      (CheckRegistry.register "DISK_USAGE" Cases.broken_check
                              {["CPU_USAGE" := Cases.passing_check]})
    = CheckRegistry.create "CPU_USAGE" (VDict []) {["CPU_USAGE" := Cases.passing_check]}.
Proof.
  apply (register_touches_one_entry "DISK_USAGE" "CPU_USAGE" Cases.broken_check
           (VDict []) {["CPU_USAGE" := Cases.passing_check]}).
  discriminate.
Defined.

Lemma string_prefix_trans (a b c : string) :
  String.prefix a b = true -> String.prefix b c = true -> String.prefix a c = true.
Proof.
  revert b c. induction a as [|x a IH]; intros b c; [by destruct c|].
  destruct b as [|y b]; [done|]. destruct c as [|z c]; [by intros _ ?|].
  cbn. destruct (ascii_dec x y) as [->|]; [|done].
  destruct (ascii_dec y z) as [->|]; [|done]. apply IH.
Qed.

(** X20. Denial reaches everything below a denied path. When the absolute
    form of [path] starts with the absolute form of a denied entry, every
    path whose absolute form starts with that of [path] is refused, whatever
    the allowed list holds. *)
Theorem denied_path_denies_what_extends_it
    (abspath : string -> string) (cfg : AgentConfig) (path longer : string) :
  Exists (λ p, startswith (abspath path) (abspath p) = true)
         (denied_paths (permissions cfg)) ->
  startswith (abspath longer) (abspath path) = true ->
  is_path_allowed abspath cfg longer = false.
Proof.
  intros Hden Hext. unfold is_path_allowed.
  assert (starts_with_any abspath (abspath longer) (denied_paths (permissions cfg))
          = true) as ->; [|done].
  apply starts_with_any_Exists. eapply Exists_impl; [exact Hden|].
  intros p Hp. unfold startswith in *. by eapply string_prefix_trans.
Qed.

Lemma denied_path_denies_what_extends_it_witness :
  is_path_allowed (posixpath.abspath "/") Scenario.default_config
                  "/root/.ssh/keys/../id_rsa" = false.
Proof.
  apply (denied_path_denies_what_extends_it (posixpath.abspath "/")
           Scenario.default_config "/root/.ssh/" "/root/.ssh/keys/../id_rsa").
  - apply Exists_cons_tl, Exists_cons_hd. reflexivity.
  - reflexivity.
Defined.

(** X21. Tightening the policy never grants access. When a second
    configuration denies at least the entries the first denies and allows at
    most the entries the first allows, every path it accepts is accepted by
    the first. *)
Theorem tighter_policy_allows_less
    (abspath : string -> string) (cfg tighter : AgentConfig) (path : string) :
  (∀ p, p ∈ denied_paths (permissions cfg) -> p ∈ denied_paths (permissions tighter)) ->
  (∀ p, p ∈ allowed_paths (permissions tighter) -> p ∈ allowed_paths (permissions cfg)) ->
  is_path_allowed abspath tighter path = true ->
  is_path_allowed abspath cfg path = true.
Proof.
  intros Hden Hall. unfold is_path_allowed.
  destruct (starts_with_any abspath (abspath path) (denied_paths (permissions tighter)))
    eqn:Hd'; [done|].
  destruct (starts_with_any abspath (abspath path) (allowed_paths (permissions tighter)))
    eqn:Ha'; [|done].
  intros _.
  destruct (starts_with_any abspath (abspath path) (denied_paths (permissions cfg)))
    eqn:Hd.
  { apply starts_with_any_Exists, Exists_exists in Hd as (p & Hp & Hpre).
    assert (starts_with_any abspath (abspath path)
              (denied_paths (permissions tighter)) = true) as Hcontra; [|congruence].
    apply starts_with_any_Exists, Exists_exists. exists p. split; [|done].
    apply Hden, Hp. }
  apply starts_with_any_Exists, Exists_exists in Ha' as (p & Hp & Hpre).
  assert (starts_with_any abspath (abspath path) (allowed_paths (permissions cfg))
          = true) as ->; [|done].
  apply starts_with_any_Exists, Exists_exists. exists p. split; [|done].
  apply Hall, Hp.
Qed.

Lemma tighter_policy_allows_less_witness :
  is_path_allowed (posixpath.abspath "/") Scenario.default_config "/var/log/syslog"
  = true.
Proof.
  apply (tighter_policy_allows_less (posixpath.abspath "/") Scenario.default_config
           Custom.locked_down "/var/log/syslog").
  - intros p. cbn. rewrite !elem_of_cons. intros [->|[->|?]]; auto.
  - intros p. cbn. rewrite !elem_of_cons. intros [->|?]; auto.
  - reflexivity.
Defined.

(** ** Merging a configuration file into the defaults *)

Lemma deep_merge_nil (base : list (string * value)) : _deep_merge base [] = base.
Proof. reflexivity. Qed.

Lemma deep_merge_cons (base rest : list (string * value)) (key : string) (v : value) :
  _deep_merge base ((key, v) :: rest)
  = _deep_merge (dict_set key (merged_entry base key v) base) rest.
Proof.
  unfold _deep_merge, merged_entry. cbn.
  destruct (assoc key base) as [[]|]; try reflexivity.
  by destruct v.
Qed.

Lemma assoc_None (k : string) (entries : list (string * value)) :
  assoc k entries = None <-> k ∉ entries.*1.
Proof.
  induction entries as [|[k' v] rest IH]; cbn.
  - split; [|done]. intros _. apply not_elem_of_nil.
  - rewrite not_elem_of_cons. destruct (String.eqb_spec k k') as [->|Hne].
    + split; [done|]. by intros [? _].
    + rewrite IH. split; [by intros ?; split|by intros [_ ?]].
Qed.

Lemma assoc_dict_set (k key : string) (v : value) (entries : list (string * value)) :
  assoc k (dict_set key v entries)
  = if String.eqb k key then Some v else assoc k entries.
Proof.
  induction entries as [|[k' v'] rest IH]; cbn.
  - by destruct (String.eqb k key).
  - destruct (String.eqb_spec key k') as [->|Hne]; cbn.
    + by destruct (String.eqb k k').
    + rewrite IH. destruct (String.eqb_spec k k') as [->|]; [|done].
      destruct (String.eqb_spec k' key) as [->|]; done.
Qed.

Lemma keys_dict_set (key : string) (v : value) (entries : list (string * value)) :
  (dict_set key v entries).*1
  = if decide (key ∈ entries.*1) then entries.*1 else (entries.*1 ++ [key])%list.
Proof.
  induction entries as [|[k' v'] rest IH]; cbn.
  - rewrite decide_False; [done|apply not_elem_of_nil].
  - destruct (String.eqb_spec key k') as [->|Hne]; cbn.
    + rewrite decide_True; [done|by left].
    + rewrite IH. destruct (decide (key ∈ rest.*1)) as [Hin|Hin].
      * rewrite decide_True; [done|by right].
      * rewrite decide_False; [done|]. rewrite not_elem_of_cons. done.
Qed.

Lemma assoc_deep_merge (base override : list (string * value)) (k : string) :
  NoDup override.*1 ->
  assoc k (_deep_merge base override)
  = match assoc k override with
    | None => assoc k base
    | Some v => Some (merged_entry base k v)
    end.
Proof.
  revert base. induction override as [|[key v] rest IH]; intros base Hnd; [done|].
  rewrite fmap_cons in Hnd. cbn [fst] in Hnd.
  apply NoDup_cons in Hnd as [Hkey Hnd]. rewrite deep_merge_cons, IH by done.
  cbn [assoc]. destruct (String.eqb_spec k key) as [->|Hne].
  - apply assoc_None in Hkey. rewrite Hkey, assoc_dict_set.
    by rewrite String.eqb_refl.
  - apply String.eqb_neq in Hne.
    destruct (assoc k rest); [|by rewrite assoc_dict_set, Hne].
    unfold merged_entry at 1 3. by rewrite assoc_dict_set, Hne.
Qed.

(** X22. What the merged configuration holds under a key. For an override
    with distinct keys: a key the override lacks keeps the base's entry;
    where both sides hold a dict under the key, the result holds the merge
    of the two; in every other case the result holds the override's
    value. *)
Theorem deep_merge_lookup
    (base override : list (string * value)) (k : string) :
  NoDup override.*1 ->
  (assoc k override = None ->
   assoc k (_deep_merge base override) = assoc k base)
  ∧ (∀ sub o, assoc k base = Some (VDict sub) ->
              assoc k override = Some (VDict o) ->
     assoc k (_deep_merge base override) = Some (VDict (_deep_merge sub o)))
  ∧ (∀ v, assoc k override = Some v ->
          (∀ sub, assoc k base ≠ Some (VDict sub)) ∨ is_dict v = false ->
     assoc k (_deep_merge base override) = Some v).
Proof.
  intros Hnd. rewrite assoc_deep_merge by done. unfold merged_entry.
  split; [by intros ->|]. split.
  - by intros sub o -> ->.
  - intros v -> [Hbase|Hv].
    + destruct (assoc k base) as [[| | | | |sub]|]; try done.
      by destruct (Hbase sub).
    + destruct (assoc k base) as [[]|]; try done. by destruct v.
Qed.

Lemma deep_merge_lookup_witness :
  assoc "permissions" (_deep_merge DEFAULT_CONFIG Custom.agent_yaml)
  = Some (VDict (_deep_merge
                   [ ("level", VStr "read_only");
                     ("allowed_paths", VList [VStr "/var/log"; VStr "/var/www"]);
                     ("denied_paths", VList [VStr "/etc/shadow"; VStr "/root/.ssh"]) ]
                   [ ("allowed_paths", VList [VStr "/srv"]) ])).
Proof.
  assert (NoDup Custom.agent_yaml.*1) as Hnd
    by (apply (bool_decide_unpack _); vm_compute; exact I).
  destruct (deep_merge_lookup DEFAULT_CONFIG Custom.agent_yaml "permissions" Hnd)
    as (_ & Hboth & _).
  apply Hboth; reflexivity.
Defined.

Lemma distinct_keys_dict (entries : list (string * value)) :
  distinct_keys (VDict entries) = true ->
  NoDup entries.*1
  ∧ ∀ k v, assoc k entries = Some v -> distinct_keys v = true.
Proof.
  cbn. intros [Hnd Hall]%andb_true_iff. split; [by apply bool_decide_eq_true in Hnd|].
  clear Hnd. induction entries as [|[k' x] rest IH]; intros k v; cbn; [done|].
  apply andb_true_iff in Hall as [Hx Hrest].
  destruct (String.eqb k k'); [by intros [= <-]|by apply IH].
Qed.

Lemma lookup_path_not_dict (path : list string) (v : value) :
  is_dict v = false -> path ≠ [] -> lookup_path path v = None.
Proof. destruct path; [done|]. by destruct v. Qed.

(** X23. The file wins at every depth. When the override, a dict with
    distinct keys at every level, holds a value that is not a dict at the end
    of a path of keys, the merged configuration holds that same value at
    the end of the same path, whatever the base holds there. *)
Theorem deep_merge_override_wins
    (base override : list (string * value)) (path : list string) (leaf : value) :
  distinct_keys (VDict override) = true ->
  lookup_path path (VDict override) = Some leaf ->
  is_dict leaf = false ->
  lookup_path path (VDict (_deep_merge base override)) = Some leaf.
Proof.
  revert base override.
  induction path as [|k path IH]; intros base override Hok Hat Hleaf.
  { cbn in Hat. by simplify_eq. }
  apply distinct_keys_dict in Hok as [Hnd Hsub]. cbn [lookup_path] in *.
  rewrite assoc_deep_merge by done.
  destruct (assoc k override) as [v|] eqn:Hk; [|done].
  unfold merged_entry. specialize (Hsub k v Hk).
  destruct (assoc k base) as [[| | | | |sub]|]; try done.
  destruct v as [| | | | |o]; try done. by apply IH.
Qed.

Lemma deep_merge_override_wins_witness :
  lookup_path ["api"; "endpoint"]
    (VDict (_deep_merge DEFAULT_CONFIG Custom.agent_yaml))
  = Some (VStr "https://hexascan.example/api/v1").
Proof.
  apply (deep_merge_override_wins DEFAULT_CONFIG Custom.agent_yaml
           ["api"; "endpoint"] (VStr "https://hexascan.example/api/v1"));
    reflexivity.
Defined.

Lemma untouched_lookup (path : list string) (override : list (string * value)) :
  untouched path override = true -> lookup_path path (VDict override) = None.
Proof.
  revert override. induction path as [|k path IH]; intros override; [done|].
  cbn. destruct (assoc k override) as [[| | | | |o]|]; try done. apply IH.
Qed.

(** X24. The defaults survive where the file is silent. When the override,
    a dict with distinct keys at every level, lacks a key somewhere along a
    path, the merged configuration holds at that path what the base holds
    there. *)
Theorem deep_merge_defaults_survive
    (base override : list (string * value)) (path : list string) :
  distinct_keys (VDict override) = true ->
  untouched path override = true ->
  lookup_path path (VDict (_deep_merge base override))
  = lookup_path path (VDict base).
Proof.
  revert base override.
  induction path as [|k path IH]; intros base override Hok Hun; [done|].
  apply distinct_keys_dict in Hok as [Hnd Hsub]. cbn [lookup_path untouched] in *.
  rewrite assoc_deep_merge by done.
  destruct (assoc k override) as [v|] eqn:Hk; [|done].
  destruct v as [| | | | |o]; try done.
  specialize (Hsub k _ Hk). unfold merged_entry.
  destruct (assoc k base) as [x|] eqn:Hb; [|by apply untouched_lookup].
  destruct x as [| | | | |sub]; try (rewrite (untouched_lookup _ _ Hun);
    symmetry; apply lookup_path_not_dict; [done|by destruct path]).
  by apply IH.
Qed.

Lemma deep_merge_defaults_survive_witness :
  lookup_path ["permissions"; "denied_paths"]
    (VDict (_deep_merge DEFAULT_CONFIG Custom.agent_yaml))
  = lookup_path ["permissions"; "denied_paths"] (VDict DEFAULT_CONFIG).
Proof.
  apply (deep_merge_defaults_survive DEFAULT_CONFIG Custom.agent_yaml
           ["permissions"; "denied_paths"]); reflexivity.
Defined.

(** X25. Merging keeps the base's keys in their places. The keys of the
    merged dict are the base's keys in the base's order, followed by keys of
    the override; no key is lost or invented, and a base with distinct keys
    gives a merged dict with distinct keys. *)
Theorem deep_merge_keys (base override : list (string * value)) :
  NoDup base.*1 ->
  base.*1 `prefix_of` (_deep_merge base override).*1
  ∧ (∀ k, k ∈ (_deep_merge base override).*1 <-> k ∈ base.*1 ∨ k ∈ override.*1)
  ∧ NoDup (_deep_merge base override).*1.
Proof.
  revert base. induction override as [|[key v] rest IH]; intros base Hnd.
  { rewrite deep_merge_nil. split; [done|]. split; [|done].
    intros k. rewrite elem_of_nil. tauto. }
  rewrite deep_merge_cons.
  set (base' := dict_set key (merged_entry base key v) base).
  assert (base'.*1 = if decide (key ∈ base.*1) then base.*1
                     else (base.*1 ++ [key])%list) as Hkeys
    by apply keys_dict_set.
  assert (NoDup base'.*1) as Hnd'.
  { rewrite Hkeys. case_decide; [done|]. apply NoDup_app. split; [done|].
    split; [|apply NoDup_singleton]. intros x Hx ->%list_elem_of_singleton. done. }
  destruct (IH base' Hnd') as (Hpre & Hmem & Hres).
  split; [|split; [|done]].
  - etrans; [|exact Hpre]. rewrite Hkeys. case_decide; [done|].
    by apply prefix_app_r.
  - intros k. rewrite Hmem, Hkeys. cbn [fmap list_fmap fst]. rewrite elem_of_cons.
    case_decide as Hin.
    + split; [tauto|]. intros [?|[->|?]]; auto.
    + rewrite elem_of_app, list_elem_of_singleton. tauto.
Qed.

Lemma deep_merge_keys_witness :
  DEFAULT_CONFIG.*1 `prefix_of` (_deep_merge DEFAULT_CONFIG Custom.agent_yaml).*1
  ∧ (∀ k, k ∈ (_deep_merge DEFAULT_CONFIG Custom.agent_yaml).*1
          <-> k ∈ DEFAULT_CONFIG.*1 ∨ k ∈ Custom.agent_yaml.*1)
  ∧ NoDup (_deep_merge DEFAULT_CONFIG Custom.agent_yaml).*1.
Proof.
  apply (deep_merge_keys DEFAULT_CONFIG Custom.agent_yaml).
  apply (bool_decide_unpack _). vm_compute. exact I.
Defined.

Lemma value_nested_ind (P : value -> Prop) :
  P VNone -> (∀ b, P (VBool b)) -> (∀ n, P (VInt n)) -> (∀ s, P (VStr s)) ->
  (∀ items, Forall P items -> P (VList items)) ->
  (∀ entries, Forall (λ e, P e.2) entries -> P (VDict entries)) ->
  ∀ v, P v.
Proof.
  intros HNone HBool HInt HStr HList HDict. fix IH 1.
  intros [|b|n|s|items|entries]; [done|done|done|done|..].
  - apply HList. induction items as [|x items IHitems]; constructor; [apply IH|done].
  - apply HDict. induction entries as [|[k x] entries IHentries]; constructor;
      [apply IH|done].
Qed.

Lemma distinct_keys_dict_iff (entries : list (string * value)) :
  distinct_keys (VDict entries) = true
  <-> NoDup entries.*1 ∧ Forall (λ e, distinct_keys e.2 = true) entries.
Proof.
  cbn. rewrite andb_true_iff, bool_decide_eq_true.
  apply and_iff_compat_l. induction entries as [|[k x] rest IH].
  - split; [by constructor|done].
  - rewrite andb_true_iff, IH, Forall_cons. done.
Qed.

Lemma Forall_dict_set (P : value -> Prop) (key : string) (v : value)
    (entries : list (string * value)) :
  P v -> Forall (λ e, P e.2) entries -> Forall (λ e, P e.2) (dict_set key v entries).
Proof.
  intros Hv. induction 1 as [|[k' v'] rest Hhd Hrest IH]; cbn.
  - by repeat constructor.
  - destruct (String.eqb key k'); constructor; done.
Qed.

Lemma Forall_assoc (P : value -> Prop) (k : string) (v : value)
    (entries : list (string * value)) :
  Forall (λ e, P e.2) entries -> assoc k entries = Some v -> P v.
Proof.
  induction 1 as [|[k' v'] rest Hhd Hrest IH]; cbn; [done|].
  destruct (String.eqb k k'); [by intros [= <-]|done].
Qed.

(** X26. Merging dicts gives a dict. When every dict inside the base and
    inside the override has pairwise distinct keys, so has every dict inside
    the merged configuration. *)
Theorem deep_merge_distinct_keys (base override : list (string * value)) :
  distinct_keys (VDict base) = true ->
  distinct_keys (VDict override) = true ->
  distinct_keys (VDict (_deep_merge base override)) = true.
Proof.
  intros Hbase Hover. revert base Hbase.
  cut (∀ v, distinct_keys v = true -> ∀ o, v = VDict o ->
       ∀ base, distinct_keys (VDict base) = true ->
               distinct_keys (VDict (_deep_merge base o)) = true).
  { intros Hcut. by apply (Hcut (VDict override)). }
  clear. intros v. induction v as [|b|n|s|items _|entries IH] using value_nested_ind;
    intros Hv o [= <-].
  apply distinct_keys_dict_iff in Hv as [_ Hvals].
  induction entries as [|[key v] rest IHrest]; intros base Hbase; [done|].
  apply Forall_cons in IH as [IHv IH]. apply Forall_cons in Hvals as [Hv Hvals].
  rewrite deep_merge_cons. apply IHrest; [done|done|]. cbn [snd] in *.
  apply distinct_keys_dict_iff in Hbase as [Hnd Hall].
  assert (distinct_keys (merged_entry base key v) = true) as Hentry.
  { unfold merged_entry. destruct (assoc key base) as [x|] eqn:Hx; [|done].
    destruct x as [| | | | |sub]; try done. destruct v as [| | | | |o]; try done.
    apply (IHv Hv o eq_refl).
    exact (Forall_assoc (λ x, distinct_keys x = true) _ _ _ Hall Hx). }
  apply distinct_keys_dict_iff.
  split; [|by apply (Forall_dict_set (λ x, distinct_keys x = true))].
  rewrite keys_dict_set. case_decide; [done|]. apply NoDup_app. split; [done|].
  split; [|apply NoDup_singleton]. intros x Hx ->%list_elem_of_singleton. done.
Qed.

Lemma deep_merge_distinct_keys_witness :
  distinct_keys (VDict (_deep_merge DEFAULT_CONFIG Custom.agent_yaml)) = true.
Proof.
  apply (deep_merge_distinct_keys DEFAULT_CONFIG Custom.agent_yaml); reflexivity.
Defined.
